(** * Chapters of the PDF creator: a shallow embedding of
      [pdf/creator/chapters.go] and the properties of its pagination.

    The file follows the Go source function by function.  Go's [int] is a
    64-bit two's complement integer, held in [Z] with the wrap-around of
    [++] written out; [float64] is Rocq's primitive binary64 float.  What
    the package declares in other files (paragraphs, blocks, the drawing
    context, the table of contents, the [Drawable] interface) is either a
    parameter of the development or a small model whose comment says so. *)

From Stdlib Require Import ZArith List String Bool Lia.
From Stdlib Require Import Floats DecimalString.
From stdpp Require Import base decidable list strings.
Import ListNotations.

Open Scope Z_scope.

(* ------------------------------------------------------------------ *)
(** ** Go's [int] and [fmt.Sprintf] *)

Module GoInt.

Definition int_min : Z := - 2 ^ 63.
Definition int_max : Z := 2 ^ 63 - 1.

(** Two's complement reduction of a mathematical integer to 64 bits. *)
Definition wrap (z : Z) : Z := (z + 2 ^ 63) mod 2 ^ 64 - 2 ^ 63.

(** [x++] on an [int]. *)
Definition incr (z : Z) : Z := wrap (z + 1).

Definition in_range (z : Z) : Prop := int_min <= z <= int_max.

End GoInt.

(** [fmt.Sprintf("%d", n)]: the decimal digits, with a minus sign for a
    negative number. *)
Definition Sprintf_d (n : Z) : string := NilZero.string_of_int (Z.to_int n).

(** [fmt.Sprintf("%d. %s", n, s)]. *)
Definition Sprintf_d_dot_s (n : Z) (s : string) : string :=
  (Sprintf_d n ++ ". " ++ s)%string.

(** [fmt.Sprintf("%s", s)]. *)
Definition Sprintf_s (s : string) : string := s.

(* ------------------------------------------------------------------ *)
(** ** [math.Max] *)

(** Go's [math.Max], with the special cases of its documentation:
    [Max(x, +Inf) = Max(+Inf, x) = +Inf], [Max(x, NaN) = Max(NaN, x) = NaN],
    [Max(+0, ±0) = Max(±0, +0) = +0], [Max(-0, -0) = -0]. *)
Definition math_Max (x y : float) : float :=
  if ((x =? infinity) || (y =? infinity))%float then infinity
  else if (is_nan x || is_nan y) then nan
  else if ((x =? 0) && (x =? y))%float then (if get_sign x then y else x)
  else if (y <? x)%float then x
  else y.

(** The sum of a sequence of [float64], taken from zero and from left to
    right, as [h += x] in a loop does. *)
Definition float64_sum (l : list float) : float :=
  fold_left PrimFloat.add l 0%float.

(** The greatest of zero and a sequence of [float64], from left to right. *)
Definition float64_max_with_zero (l : list float) : float :=
  fold_left math_Max l 0%float.

(** [x <= y] on [float64]. *)
Definition float_le (x y : float) : Prop := (x <=? y)%float = true.

(** NaN among the specification-level floats. *)
Definition sf_is_nan (x : spec_float) : bool :=
  match x with S754_nan => true | _ => false end.

(* ------------------------------------------------------------------ *)
(** ** Collaborating types of the package *)

Inductive Font : Type :=
| FontHelvetica
| FontNamed (name : string).

(** Modelled from the spec: the [paragraph] type is declared in another file
    of the package; the chapter needs its text and the two style fields that
    [NewChapter] sets.  [NewParagraph] starts from Helvetica at size 10,
    both overwritten by [NewChapter]. *)
Record paragraph : Type := mkParagraph {
  text : string;
  fontSize : float;
  textFont : Font
}.

Definition NewParagraph (t : string) : paragraph :=
  {| text := t; fontSize := 10; textFont := FontHelvetica |}.

Definition paragraph_SetText (t : string) (p : paragraph) : paragraph :=
  {| text := t; fontSize := fontSize p; textFont := textFont p |}.

Definition paragraph_SetFontSize (s : float) (p : paragraph) : paragraph :=
  {| text := text p; fontSize := s; textFont := textFont p |}.

Definition paragraph_SetFont (f : Font) (p : paragraph) : paragraph :=
  {| text := text p; fontSize := fontSize p; textFont := f |}.

Inductive positioning : Type :=
| positionRelative
| positionAbsolute.

Inductive Sizing : Type :=
| SizingGeneral
| SizingOccupyAvailableSpace.

(** The four margins ([left], [right], [top], [bottom] in the source; the
    first two are constructor names here). *)
Record margins : Type := mkMargins {
  margin_left : float;
  margin_right : float;
  margin_top : float;
  margin_bottom : float
}.

(** A pointer is an address. *)
Definition addr : Type := N.

(** The nil pointer.  A nil [*paragraph], [*image], [*Block] or
    [*subchapter] is a [Drawable] of that type at this address; it is not
    the nil interface value. *)
Definition nil_ptr : addr := 0%N.

(** The dynamic type of a [Drawable] interface value, as far as the type
    switch of [Add] tells types apart. *)
Inductive DrawableType : Type :=
| T_paragraph
| T_image
| T_Block
| T_subchapter
| T_Chapter
| T_other (name : string).

(** A [Drawable] interface value: nil, or a dynamic type with a pointer. *)
Inductive Drawable : Type :=
| Drawable_nil
| Drawable_ptr (ty : DrawableType) (p : addr).

#[global] Instance DrawableType_eq_dec : EqDecision DrawableType.
Proof. solve_decision. Defined.

#[global] Instance Drawable_eq_dec : EqDecision Drawable.
Proof. solve_decision. Defined.

(** [%T] of an interface value. *)
Definition Sprintf_T (d : Drawable) : string :=
  match d with
  | Drawable_nil => "<nil>"
  | Drawable_ptr T_paragraph _ => "*creator.paragraph"
  | Drawable_ptr T_image _ => "*creator.image"
  | Drawable_ptr T_Block _ => "*creator.Block"
  | Drawable_ptr T_subchapter _ => "*creator.subchapter"
  | Drawable_ptr T_Chapter _ => "*creator.Chapter"
  | Drawable_ptr (T_other name) _ => name
  end.

(** Modelled from the spec: the section registry records (title, number,
    indent level, page) entries; [add] is fire-and-forget and appends one
    entry.  The type is declared in another file of the package. *)
Record tableOfContentsEntry : Type := mkEntry {
  entry_title : string;
  entry_number : Z;
  entry_level : Z;
  entry_page : Z
}.

Definition TableOfContents : Type := list tableOfContentsEntry.

Definition TableOfContents_add (toc : TableOfContents)
    (title : string) (number level page : Z) : TableOfContents :=
  toc ++ [mkEntry title number level page].

(* ------------------------------------------------------------------ *)
(** ** The chapter *)

(** The fields of the struct.  [heading] is the paragraph that the pointer
    [heading *paragraph] leads to; where a property depends on the pointer
    itself, it is the [heading_ptr] of [GetHeading_Drawable]. *)
Record Chapter : Type := mkChapter {
  number : Z;
  title : string;
  heading : paragraph;
  subchapters : Z;
  contents : list Drawable;
  showNumbering : bool;
  includeInTOC : bool;
  chap_positioning : positioning;
  xPos : float;
  yPos : float;
  chap_margins : margins;
  sizing : Sizing;
  toc : addr
}.

(** The fields of [Creator] that [NewChapter] reads and writes. *)
Record Creator : Type := mkCreator {
  chapters : Z;
  creator_toc : addr
}.

Definition NewChapter (c : Creator) (title : string) : Creator * Chapter :=
  let chapters' := GoInt.incr (chapters c) in
  let c' := {| chapters := chapters'; creator_toc := creator_toc c |} in
  let heading_text := Sprintf_d_dot_s chapters' title in
  let p := NewParagraph heading_text in
  let p := paragraph_SetFontSize 16 p in
  let p := paragraph_SetFont FontHelvetica p in
  (c',
   {| number := chapters';
      title := title;
      heading := p;
      subchapters := 0;
      contents := [];
      showNumbering := true;
      includeInTOC := true;
      chap_positioning := positionRelative;
      xPos := 0;
      yPos := 0;
      chap_margins := mkMargins 0 0 0 0;
      sizing := SizingOccupyAvailableSpace;
      toc := creator_toc c' |}).

Definition with_heading (p : paragraph) (chap : Chapter) : Chapter :=
  mkChapter (number chap) (title chap) p (subchapters chap) (contents chap)
    (showNumbering chap) (includeInTOC chap) (chap_positioning chap)
    (xPos chap) (yPos chap) (chap_margins chap) (sizing chap) (toc chap).

Definition with_showNumbering (b : bool) (chap : Chapter) : Chapter :=
  mkChapter (number chap) (title chap) (heading chap) (subchapters chap)
    (contents chap) b (includeInTOC chap) (chap_positioning chap)
    (xPos chap) (yPos chap) (chap_margins chap) (sizing chap) (toc chap).

Definition with_contents (ds : list Drawable) (chap : Chapter) : Chapter :=
  mkChapter (number chap) (title chap) (heading chap) (subchapters chap)
    ds (showNumbering chap) (includeInTOC chap) (chap_positioning chap)
    (xPos chap) (yPos chap) (chap_margins chap) (sizing chap) (toc chap).

Definition SetShowNumbering (show : bool) (chap : Chapter) : Chapter :=
  let chap :=
    if show then
      let heading_text := Sprintf_d_dot_s (number chap) (title chap) in
      with_heading (paragraph_SetText heading_text (heading chap)) chap
    else
      let heading_text := Sprintf_s (title chap) in
      with_heading (paragraph_SetText heading_text (heading chap)) chap in
  with_showNumbering show chap.

Definition SetIncludeInTOC (include : bool) (chap : Chapter) : Chapter :=
  mkChapter (number chap) (title chap) (heading chap) (subchapters chap)
    (contents chap) (showNumbering chap) include (chap_positioning chap)
    (xPos chap) (yPos chap) (chap_margins chap) (sizing chap) (toc chap).

Definition GetHeading (chap : Chapter) : paragraph := heading chap.

(** [GetHeading] hands out the pointer held by the chapter: a method called
    on the result acts on the chapter's own heading.  This is
    [chap.GetHeading().SetText(t)]. *)
Definition GetHeading_SetText (t : string) (chap : Chapter) : Chapter :=
  with_heading (paragraph_SetText t (heading chap)) chap.

Definition GetSizingMechanism (chap : Chapter) : Sizing := sizing chap.

Definition SetPos (x y : float) (chap : Chapter) : Chapter :=
  mkChapter (number chap) (title chap) (heading chap) (subchapters chap)
    (contents chap) (showNumbering chap) (includeInTOC chap) positionAbsolute
    x y (chap_margins chap) (sizing chap) (toc chap).

Definition SetMargins (l r t b : float) (chap : Chapter) : Chapter :=
  mkChapter (number chap) (title chap) (heading chap) (subchapters chap)
    (contents chap) (showNumbering chap) (includeInTOC chap)
    (chap_positioning chap) (xPos chap) (yPos chap) (mkMargins l r t b)
    (sizing chap) (toc chap).

Definition GetMargins (chap : Chapter) : float * float * float * float :=
  (margin_left (chap_margins chap), margin_right (chap_margins chap),
   margin_top (chap_margins chap), margin_bottom (chap_margins chap)).

(** [Add], on the receiver pointer [self] and the chapter it points to.  The
    result is the chapter and the lines given to [common.Log.Debug]; the Go
    method returns nothing. *)
Definition Add (self : addr) (chap : Chapter) (d : Drawable)
  : Chapter * list string :=
  if decide (Drawable_ptr T_Chapter self = d) then
    (chap, ["ERROR: Cannot add itself"%string])
  else
    match d with
    | Drawable_ptr T_Chapter _ =>
        (chap, ["Error: Cannot add chapter to a chapter"%string])
    | Drawable_ptr T_paragraph _
    | Drawable_ptr T_image _
    | Drawable_ptr T_Block _
    | Drawable_ptr T_subchapter _ =>
        (with_contents (contents chap ++ [d]) chap, [])
    | _ =>
        (chap, [("Unsupported: " ++ Sprintf_T d)%string])
    end.

(** The kinds that the type switch of [Add] lets in. *)
Definition accepted (d : Drawable) : bool :=
  match d with
  | Drawable_ptr T_paragraph _
  | Drawable_ptr T_image _
  | Drawable_ptr T_Block _
  | Drawable_ptr T_subchapter _ => true
  | _ => false
  end.

(** [Add] called on each drawable of [ds] in turn. *)
Definition Add_all (self : addr) (chap : Chapter) (ds : list Drawable)
  : Chapter :=
  fold_left (fun c d => fst (Add self c d)) ds chap.


(** What a caller can do to a chapter it holds: the chapter's own methods,
    and a change of the heading's text through the pointer that
    [GetHeading] returns. *)
Inductive method : Type :=
| call_SetShowNumbering (show : bool)
| call_SetIncludeInTOC (include : bool)
| call_SetPos (x y : float)
| call_SetMargins (l r t b : float)
| call_Add (d : Drawable)
| call_GetHeading_SetText (t : string).

Definition call (self : addr) (chap : Chapter) (m : method) : Chapter :=
  match m with
  | call_SetShowNumbering show => SetShowNumbering show chap
  | call_SetIncludeInTOC include => SetIncludeInTOC include chap
  | call_SetPos x y => SetPos x y chap
  | call_SetMargins l r t b => SetMargins l r t b chap
  | call_Add d => fst (Add self chap d)
  | call_GetHeading_SetText t => GetHeading_SetText t chap
  end.

Definition calls (self : addr) (chap : Chapter) (ms : list method) : Chapter :=
  fold_left (call self) ms chap.


(* ------------------------------------------------------------------ *)
(** ** Size of a chapter *)

Section Size.

(** The [Height] and [Width] methods of the nested drawables. *)
Variable Drawable_Height : Drawable -> float.
Variable Drawable_Width : Drawable -> float.

(** The [for ... range] loop of [Height], from the running total [h]. *)
Fixpoint Height_loop (ds : list Drawable) (h : float) : float :=
  match ds with
  | [] => h
  | d :: ds' => Height_loop ds' (h + Drawable_Height d)%float
  end.

Definition Height (chap : Chapter) : float :=
  Height_loop (contents chap) 0%float.

Fixpoint Width_loop (ds : list Drawable) (maxW : float) : float :=
  match ds with
  | [] => maxW
  | d :: ds' => Width_loop ds' (math_Max maxW (Drawable_Width d))
  end.

Definition Width (chap : Chapter) : float :=
  Width_loop (contents chap) 0%float.

End Size.

(** The chapter holds its heading through a pointer ([heading *paragraph]):
    [GetHeading] hands that pointer out, and [Add] takes it like any other
    paragraph.  As for the receiver of [Add], the address travels beside
    the record: [heading_ptr] is where the chapter's heading lives, and a
    [Drawable] at that address is the heading itself, in the state the
    chapter holds it in. *)
Definition GetHeading_Drawable (heading_ptr : addr) : Drawable :=
  Drawable_ptr T_paragraph heading_ptr.

Section SizeThroughPointers.

Variable heading_ptr : addr.

(** [Height] and [Width] of a paragraph, by its state. *)
Variable paragraph_Height paragraph_Width : paragraph -> float.

(** [Height] and [Width] of the drawables that are not the heading. *)
Variable Drawable_Height Drawable_Width : Drawable -> float.

(** [d.Height()] while the chapter is [chap]. *)
Definition Height_of (chap : Chapter) (d : Drawable) : float :=
  if decide (d = GetHeading_Drawable heading_ptr)
  then paragraph_Height (heading chap)
  else Drawable_Height d.

(** [d.Width()] while the chapter is [chap]. *)
Definition Width_of (chap : Chapter) (d : Drawable) : float :=
  if decide (d = GetHeading_Drawable heading_ptr)
  then paragraph_Width (heading chap)
  else Drawable_Width d.

(** [chap.Height()] and [chap.Width()] with the heading reachable through
    its pointer. *)
Definition Chapter_Height (chap : Chapter) : float :=
  Height (Height_of chap) chap.

Definition Chapter_Width (chap : Chapter) : float :=
  Width (Width_of chap) chap.

End SizeThroughPointers.

(* ------------------------------------------------------------------ *)
(** ** Pagination *)

(** A Go [error] value, by its message. *)
Definition error : Type := string.

(** What the Go run time says when [blocks[len(blocks)-1]] is evaluated on
    an empty slice. *)
Definition index_out_of_range : string :=
  "runtime error: index out of range [-1]".

(** Indexing a slice: [s[i]] is defined for [0 <= i < len(s)] and panics
    otherwise. *)
Definition slice_index {A : Type} (s : list A) (i : Z) : option A :=
  if (i <? 0) || (Z.of_nat (length s) <=? i) then None
  else s !! Z.to_nat i.

Section Pagination.

(** The contents of a block, and what [blk.mergeBlocks(toAdd)] leaves in
    the receiver [blk].  A [[]*Block] is modelled by the sequence of the
    contents its pointers lead to. *)
Variable Block : Type.
Variable mergeBlocks : Block -> Block -> Block.

(** What a drawing context carries besides the page index. *)
Variable Cursor : Type.

(** Modelled from the spec: the drawing context is a small value with the
    current page index and the cursor state, passed into and returned out of
    every pagination call.  The type is declared in another file of the
    package. *)
Record DrawContext : Type := mkDrawContext {
  Page : Z;
  cursor : Cursor
}.

(** [GeneratePageBlocks] of the heading's type. *)
Variable paragraph_GeneratePageBlocks :
  paragraph -> DrawContext -> list Block * DrawContext * option error.

(** [GeneratePageBlocks] of a nested drawable: its three results, and the
    entries it adds to the shared registry on its own account (a nested
    subchapter registers itself as the chapter does). *)
Variable Drawable_GeneratePageBlocks :
  Drawable -> DrawContext ->
  (list Block * DrawContext * option error) * list tableOfContentsEntry.

(** How a call ends: with its three results, or in a run-time panic. *)
Inductive outcome : Type :=
| Returns (blocks : list Block) (ctx : DrawContext) (err : option error)
| Panics (msg : string).

(** How one turn of the loop over the contents ends: the next turn starts
    from [blocks] and [ctx], or the call is over. *)
Inductive turn : Type :=
| Next (blocks : list Block) (ctx : DrawContext)
| Done (o : outcome).

(** [ctx.Page++]. *)
Definition next_page (ctx : DrawContext) : DrawContext :=
  {| Page := GoInt.incr (Page ctx); cursor := cursor ctx |}.

(** [if len(blocks) > 1 { ctx.Page++ }]. *)
Definition heading_advance (blocks : list Block) (ctx : DrawContext)
  : DrawContext :=
  if 1 <? Z.of_nat (length blocks) then next_page ctx else ctx.

(** [if chap.includeInTOC { chap.toc.add(chap.title, chap.number, 0,
    ctx.Page) }]. *)
Definition include_in_toc (chap : Chapter) (ctx : DrawContext)
    (registry : TableOfContents) : TableOfContents :=
  if includeInTOC chap
  then TableOfContents_add registry (title chap) (number chap) 0 (Page ctx)
  else registry.

(** The body of the loop for the item [d]. *)
Definition loop_body (d : Drawable) (blocks : list Block)
    (ctx : DrawContext) (registry : TableOfContents)
  : turn * TableOfContents :=
  let '((newBlocks, c, err), registered) :=
    Drawable_GeneratePageBlocks d ctx in
  let registry := registry ++ registered in
  match err with
  | Some e =>
      (* return blocks, ctx, err *)
      (Done (Returns blocks ctx (Some e)), registry)
  | None =>
      match newBlocks with
      | [] =>
          (* len(newBlocks) < 1: continue *)
          (Next blocks ctx, registry)
      | first :: rest =>
          (* blocks[len(blocks)-1].mergeBlocks(newBlocks[0]) *)
          let i := Z.of_nat (length blocks) - 1 in
          match slice_index blocks i with
          | None => (Done (Panics index_out_of_range), registry)
          | Some last =>
              let blocks := <[Z.to_nat i := mergeBlocks last first]> blocks in
              (* blocks = append(blocks, newBlocks[1:]...); ctx = c *)
              (Next (blocks ++ rest) c, registry)
          end
      end
  end.

Fixpoint contents_loop (ds : list Drawable) (blocks : list Block)
    (ctx : DrawContext) (registry : TableOfContents)
  : outcome * TableOfContents :=
  match ds with
  | [] => (Returns blocks ctx None, registry)
  | d :: ds' =>
      match loop_body d blocks ctx registry with
      | (Next blocks' ctx', registry') =>
          contents_loop ds' blocks' ctx' registry'
      | (Done o, registry') => (o, registry')
      end
  end.

(** [GeneratePageBlocks] of a chapter, from the state of the registry that
    [chap.toc] points to; the result is how the call ends and the registry
    it leaves. *)
Definition GeneratePageBlocks (chap : Chapter) (ctx : DrawContext)
    (registry : TableOfContents) : outcome * TableOfContents :=
  let '(blocks, ctx, err) :=
    paragraph_GeneratePageBlocks (heading chap) ctx in
  match err with
  | Some e => (Returns blocks ctx (Some e), registry)
  | None =>
      let ctx := heading_advance blocks ctx in
      let registry := include_in_toc chap ctx registry in
      contents_loop (contents chap) blocks ctx registry
  end.

(** *** What the properties speak of *)

(** The four ways a turn of the loop can go: the item fails; it returns no
    block; its first block is merged into the last accumulated one; there is
    no accumulated block to merge into. *)
Inductive body_spec (d : Drawable) (blocks : list Block)
    (ctx : DrawContext) (registry : TableOfContents)
  : turn * TableOfContents -> Prop :=
| body_error nb c e reg :
    Drawable_GeneratePageBlocks d ctx = ((nb, c, Some e), reg) ->
    body_spec d blocks ctx registry
      (Done (Returns blocks ctx (Some e)), registry ++ reg)
| body_skip c reg :
    Drawable_GeneratePageBlocks d ctx = (([], c, None), reg) ->
    body_spec d blocks ctx registry (Next blocks ctx, registry ++ reg)
| body_merge init last first rest c reg :
    Drawable_GeneratePageBlocks d ctx = ((first :: rest, c, None), reg) ->
    blocks = init ++ [last] ->
    body_spec d blocks ctx registry
      (Next (init ++ [mergeBlocks last first] ++ rest) c, registry ++ reg)
| body_panic first rest c reg :
    Drawable_GeneratePageBlocks d ctx = ((first :: rest, c, None), reg) ->
    blocks = [] ->
    body_spec d blocks ctx registry
      (Done (Panics index_out_of_range), registry ++ reg).

(** No nested item returns a smaller page counter than it receives. *)
Definition never_turns_back : Prop :=
  forall d c nb c' err reg,
    Drawable_GeneratePageBlocks d c = ((nb, c', err), reg) -> Page c <= Page c'.

(** The item returns no block and no error. *)
Definition skipped (ctx : DrawContext) (d : Drawable) : Prop :=
  exists c reg, Drawable_GeneratePageBlocks d ctx = (([], c, None), reg).

(** The item returns one block or more and no error. *)
Definition yields_blocks (ctx : DrawContext) (d : Drawable) : Prop :=
  exists first rest c reg,
    Drawable_GeneratePageBlocks d ctx = ((first :: rest, c, None), reg).

End Pagination.

Arguments Page {Cursor} _.
Arguments cursor {Cursor} _.
Arguments mkDrawContext {Cursor} _ _.
Arguments Returns {Block Cursor} _ _ _.
Arguments Panics {Block Cursor} _.
Arguments Next {Block Cursor} _ _.
Arguments Done {Block Cursor} _.
Arguments next_page {Cursor} _.
Arguments heading_advance {Block Cursor} _ _.
Arguments include_in_toc {Cursor} _ _ _.
Arguments loop_body {Block} _ {Cursor} _ _ _ _ _.
Arguments contents_loop {Block} _ {Cursor} _ _ _ _ _.
Arguments GeneratePageBlocks {Block} _ {Cursor} _ _ _ _ _.
Arguments body_spec {Block} _ {Cursor} _ _ _ _ _ _.
Arguments never_turns_back {Block Cursor} _.
Arguments skipped {Block Cursor} _ _ _.
Arguments yields_blocks {Block Cursor} _ _ _.

(* ------------------------------------------------------------------ *)
(** ** Runs of calls *)

(** [NewChapter] called once for each title, in order, on the same
    creator. *)
Fixpoint NewChapters (c : Creator) (titles : list string)
  : Creator * list Chapter :=
  match titles with
  | [] => (c, [])
  | t :: ts =>
      let '(c1, chap) := NewChapter c t in
      let '(c2, chaps) := NewChapters c1 ts in
      (c2, chap :: chaps)
  end.

(** The drawable that a call hands to [Add], if it is a call of [Add]. *)
Definition added_by (m : method) : list Drawable :=
  match m with
  | call_Add d => [d]
  | _ => []
  end.

(** The margins that the last [SetMargins] of a run of calls asked for, or
    [start] when the run has none. *)
Definition margins_after (start : margins) (ms : list method) : margins :=
  fold_left
    (fun acc m =>
       match m with
       | call_SetMargins l r t b => mkMargins l r t b
       | _ => acc
       end)
    ms start.

(** The positioning mode and the coordinates that the last [SetPos] of a
    run of calls asked for, or [start] when the run has none. *)
Definition position_after (start : positioning * float * float)
    (ms : list method) : positioning * float * float :=
  fold_left
    (fun acc m =>
       match m with
       | call_SetPos x y => (positionAbsolute, x, y)
       | _ => acc
       end)
    ms start.

Definition is_SetPos (m : method) : bool :=
  match m with
  | call_SetPos _ _ => true
  | _ => false
  end.

Definition is_SetMargins (m : method) : bool :=
  match m with
  | call_SetMargins _ _ _ _ => true
  | _ => false
  end.

(* ------------------------------------------------------------------ *)
(** ** A concrete document

    Blocks are the text drawn on a page and merging appends the text; the
    cursor is not used.  The collaborators below are the ones the examples
    of this file run on. *)

Module Scenario.

Definition ctx_at (page : Z) : DrawContext unit := mkDrawContext page tt.

Definition mergeText (blk toAdd : string) : string := (blk ++ toAdd)%string.

(** A heading that fits on the page: one block, the context as it came. *)
Definition heading_fits (p : paragraph) (ctx : DrawContext unit)
  : list string * DrawContext unit * option error :=
  ([text p], ctx, None).

(** A heading that does not fit: the block of the page left behind and the
    block of the new page, the context as it came. *)
Definition heading_wraps (p : paragraph) (ctx : DrawContext unit)
  : list string * DrawContext unit * option error :=
  ([EmptyString; text p], ctx, None).

(** A heading that does not fit and counts the page it turned in the
    context it returns. *)
Definition heading_turns_page (p : paragraph) (ctx : DrawContext unit)
  : list string * DrawContext unit * option error :=
  ([EmptyString; text p], ctx_at (Page ctx + 1), None).

(** A heading that yields no block at all. *)
Definition heading_blank (p : paragraph) (ctx : DrawContext unit)
  : list string * DrawContext unit * option error :=
  ([], ctx, None).

(** The nested drawables, by address: paragraph 1 fits on the page,
    paragraph 2 runs over to a second page, image 3 cannot be drawn,
    block 4 is empty, subchapter 5 registers itself, and subchapter 6
    fails after its own heading was drawn and registered. *)
Definition draw (d : Drawable) (ctx : DrawContext unit)
  : (list string * DrawContext unit * option error)
    * list tableOfContentsEntry :=
  match d with
  | Drawable_ptr T_paragraph 1%N => (["body"%string], ctx, None, [])
  | Drawable_ptr T_paragraph 2%N =>
      (["long"%string; "tail"%string], ctx_at (Page ctx + 1), None, [])
  | Drawable_ptr T_image 3%N =>
      ([], ctx_at (Page ctx + 7), Some "image: cannot decode"%string, [])
  | Drawable_ptr T_subchapter 5%N =>
      (["1.1. Scope"%string], ctx, None,
       [mkEntry "Scope" 1 1 (Page ctx)])
  | Drawable_ptr T_subchapter 6%N =>
      (["1.2. Plates"%string], ctx_at (Page ctx + 1),
       Some "image: cannot decode"%string,
       [mkEntry "Plates" 1 2 (Page ctx)])
  | _ => ([], ctx, None, [])
  end.

Definition creator0 : Creator := mkCreator 0 100%N.

(** The chapter "Intro", number 1, as [NewChapter] builds it. *)
Definition intro : Chapter := snd (NewChapter creator0 "Intro").

Definition para1 : Drawable := Drawable_ptr T_paragraph 1%N.
Definition para2 : Drawable := Drawable_ptr T_paragraph 2%N.
Definition image3 : Drawable := Drawable_ptr T_image 3%N.
Definition block4 : Drawable := Drawable_ptr T_Block 4%N.
Definition sub5 : Drawable := Drawable_ptr T_subchapter 5%N.
Definition sub6 : Drawable := Drawable_ptr T_subchapter 6%N.

(** The address of [intro]. *)
Definition intro_addr : addr := 10%N.

End Scenario.

(** More of the concrete document. *)
Module Scenario2.

Import Scenario.

(** A heading that fails after it has run over to a second block. *)
Definition heading_fails (p : paragraph) (ctx : DrawContext unit)
  : list string * DrawContext unit * option error :=
  ([text p; "overflow"%string], ctx_at (Page ctx + 3),
   Some "font: missing glyph"%string).

(** The empty block is the item that draws nothing. *)
Definition draws_nothing (d : Drawable) : bool :=
  if decide (d = block4) then true else false.

(** Where the heading of "Intro" lives. *)
Definition intro_heading_ptr : addr := 20%N.

(** A paragraph is one line high when its text is "Intro" and two lines
    high otherwise. *)
Definition lines_of (p : paragraph) : float :=
  if String.eqb (text p) "Intro" then 1%float else 2%float.

Definition three_titles : list string :=
  ["Intro"%string; "Method"%string; "Results"%string].

End Scenario2.

(* ------------------------------------------------------------------ *)
(** * Properties of the chapter's configuration *)

(** ** Adding content *)

Lemma Add_accepted self chap d :
  accepted d = true ->
  Add self chap d = (with_contents (contents chap ++ [d]) chap, []).
Proof.
  intros Hacc. unfold Add.
  destruct (decide (Drawable_ptr T_Chapter self = d)) as [<-|_];
    [discriminate Hacc|].
  destruct d as [|[] p]; try discriminate Hacc; reflexivity.
Qed.

Lemma Add_rejected self chap d :
  accepted d = false ->
  fst (Add self chap d) = chap /\ snd (Add self chap d) <> [].
Proof.
  intros Hrej. unfold Add.
  destruct (decide (Drawable_ptr T_Chapter self = d)) as [_|_];
    [split; [reflexivity | discriminate]|].
  destruct d as [|[] p]; try discriminate Hrej;
    split; try reflexivity; discriminate.
Qed.

Lemma Add_all_contents self ds : forall chap,
  contents (Add_all self chap ds) = contents chap ++ List.filter accepted ds.
Proof.
  induction ds as [|d ds IH]; intros chap; cbn [Add_all fold_left List.filter].
  - rewrite app_nil_r. reflexivity.
  - fold (Add_all self (fst (Add self chap d)) ds). rewrite IH.
    destruct (accepted d) eqn:Hacc.
    + rewrite (Add_accepted self chap d Hacc). cbn [fst with_contents contents].
      rewrite <- app_assoc. reflexivity.
    + destruct (Add_rejected self chap d Hacc) as [-> _]. reflexivity.
Qed.

(** C6: [Add] of the chapter itself, of another chapter, or of anything
    outside the four accepted kinds returns the chapter as it was (same
    contents, same fields) and only logs a diagnostic; the method has no
    result through which an error could reach the caller.  [Add] of an
    accepted kind appends it at the end of the contents, after everything
    accepted before: a run of calls leaves the earlier contents followed by
    the accepted arguments in the order of the calls. *)
Theorem Add_ignores_or_appends self chap d :
  Add self chap (Drawable_ptr T_Chapter self)
  = (chap, ["ERROR: Cannot add itself"%string])
  /\ (forall p, p <> self ->
        Add self chap (Drawable_ptr T_Chapter p)
        = (chap, ["Error: Cannot add chapter to a chapter"%string]))
  /\ (accepted d = false ->
        fst (Add self chap d) = chap
        /\ contents (fst (Add self chap d)) = contents chap
        /\ length (contents (fst (Add self chap d))) = length (contents chap)
        /\ snd (Add self chap d) <> [])
  /\ (accepted d = true ->
        Add self chap d = (with_contents (contents chap ++ [d]) chap, []))
  /\ (forall ds,
        contents (Add_all self chap ds)
        = contents chap ++ List.filter accepted ds).
Proof.
  split; [|split; [|split; [|split]]].
  - unfold Add. rewrite decide_True by reflexivity. reflexivity.
  - intros p Hp. unfold Add. rewrite decide_False by congruence. reflexivity.
  - intros Hrej. destruct (Add_rejected self chap d Hrej) as [Hsame Hlog].
    rewrite Hsame. repeat split; [reflexivity.. | exact Hlog].
  - apply Add_accepted.
  - intros ds. apply Add_all_contents.
Qed.

(** ** The order of [float64]

    The comparison of two floats is that of their specifications, a
    lexicographic order on sign, exponent and mantissa; NaN compares with
    nothing. *)

Lemma SFcompare_refl x : sf_is_nan x = false -> SFcompare x x = Some Eq.
Proof.
  destruct x as [s|s| |s m e]; cbn; intros Hn; try discriminate Hn;
    try (destruct s; reflexivity).
  rewrite Z.compare_refl. fold (Pos.compare m m). rewrite Pos.compare_refl.
  destruct s; reflexivity.
Qed.

Ltac cmp_cases :=
  repeat match goal with
  | |- context [Z.compare ?a ?b] => destruct (Z.compare_spec a b)
  | H : context [Z.compare ?a ?b] |- _ => destruct (Z.compare_spec a b)
  | |- context [Pos.compare ?a ?b] => destruct (Pos.compare_spec a b)
  | H : context [Pos.compare ?a ?b] |- _ => destruct (Pos.compare_spec a b)
  end.

Lemma SFleb_trans x y z :
  SFleb x y = true -> SFleb y z = true -> SFleb x z = true.
Proof.
  unfold SFleb.
  destruct x as [sx|sx| |sx mx ex], y as [sy|sy| |sy my ey],
    z as [sz|sz| |sz mz ez]; cbn;
    try discriminate; try (destruct sx, sy, sz; cbn; congruence).
  destruct sx, sy, sz; cbn; try congruence;
    change (Pos.compare_cont Eq) with Pos.compare;
    intros H1 H2; cmp_cases; subst; cbn in *; try congruence; try lia.
Qed.

Lemma SFleb_refl x : sf_is_nan x = false -> SFleb x x = true.
Proof.
  intros Hn. unfold SFleb. rewrite SFcompare_refl by exact Hn. reflexivity.
Qed.

Lemma SFltb_leb x y : SFltb x y = true -> SFleb x y = true.
Proof. unfold SFltb, SFleb. destruct (SFcompare x y) as [[]|]; congruence. Qed.

Lemma SFeqb_leb x y : SFeqb x y = true -> SFleb x y = true.
Proof. unfold SFeqb, SFleb. destruct (SFcompare x y) as [[]|]; congruence. Qed.

Lemma SFcompare_swap x y :
  SFcompare y x = option_map CompOpp (SFcompare x y).
Proof.
  destruct x as [sx|sx| |sx mx ex], y as [sy|sy| |sy my ey]; cbn;
    try reflexivity; try (destruct sx; reflexivity);
    try (destruct sy; reflexivity); try (destruct sx, sy; reflexivity).
  destruct sx, sy; cbn; try reflexivity;
    change (Pos.compare_cont Eq) with Pos.compare;
    rewrite (Z.compare_antisym ex ey), (Pos.compare_antisym mx my);
    destruct (ex ?= ey), (mx ?= my)%positive; reflexivity.
Qed.

Lemma SFcompare_some x y :
  sf_is_nan x = false -> sf_is_nan y = false ->
  exists c, SFcompare x y = Some c.
Proof.
  destruct x as [sx|sx| |sx mx ex], y as [sy|sy| |sy my ey]; cbn;
    try discriminate; eauto.
Qed.

Lemma SFleb_total x y :
  sf_is_nan x = false -> sf_is_nan y = false ->
  SFltb y x = false -> SFleb x y = true.
Proof.
  intros Hx Hy. unfold SFltb, SFleb. rewrite (SFcompare_swap x y).
  destruct (SFcompare_some x y Hx Hy) as [c ->].
  destruct c; cbn; congruence.
Qed.

Lemma SFleb_antisym x y :
  SFleb x y = true -> SFleb y x = true -> SFeqb x y = true.
Proof.
  unfold SFeqb, SFleb. rewrite (SFcompare_swap x y).
  destruct (SFcompare x y) as [[]|]; cbn; congruence.
Qed.

Lemma SFeqb_sym x y : SFeqb x y = SFeqb y x.
Proof.
  unfold SFeqb. rewrite (SFcompare_swap x y).
  destruct (SFcompare x y) as [[]|]; reflexivity.
Qed.

Lemma is_nan_spec x : is_nan x = sf_is_nan (Prim2SF x).
Proof.
  unfold is_nan. rewrite FloatAxioms.eqb_spec. unfold SFeqb.
  destruct (Prim2SF x) as [s|s| |s m e] eqn:Hx; cbn; try reflexivity;
    try (destruct s; reflexivity).
  rewrite Z.compare_refl. change (Pos.compare_cont Eq) with Pos.compare.
  rewrite Pos.compare_refl. destruct s; reflexivity.
Qed.

Lemma float_le_refl x : is_nan x = false -> float_le x x.
Proof.
  intros Hn. unfold float_le. rewrite leb_spec. apply SFleb_refl.
  rewrite <- is_nan_spec. exact Hn.
Qed.

Lemma float_le_trans x y z : float_le x y -> float_le y z -> float_le x z.
Proof. unfold float_le. rewrite !leb_spec. apply SFleb_trans. Qed.

Lemma eqb_infinity x : (x =? infinity)%float = true -> x = infinity.
Proof.
  rewrite FloatAxioms.eqb_spec. intros H. apply Prim2SF_inj.
  change (Prim2SF infinity) with (S754_infinity false) in *.
  unfold SFeqb in H.
  destruct (Prim2SF x) as [s|s| |s m e]; cbn in H; try discriminate H;
    destruct s; try discriminate H; reflexivity.
Qed.

Lemma float_le_infinity x : is_nan x = false -> float_le x infinity.
Proof.
  rewrite is_nan_spec. unfold float_le. rewrite leb_spec.
  change (Prim2SF infinity) with (S754_infinity false).
  unfold SFleb. destruct (Prim2SF x) as [s|s| |s m e]; cbn;
    try discriminate; intros _; try destruct s; reflexivity.
Qed.

Lemma math_Max_spec x y :
  is_nan x = false -> is_nan y = false ->
  (math_Max x y = x \/ math_Max x y = y)
  /\ float_le x (math_Max x y) /\ float_le y (math_Max x y).
Proof.
  intros Hx Hy. unfold math_Max. rewrite Hx, Hy. cbn [orb].
  destruct (x =? infinity)%float eqn:Hxi; cbn [orb].
  { apply eqb_infinity in Hxi. subst x.
    auto using float_le_infinity. }
  destruct (y =? infinity)%float eqn:Hyi.
  { apply eqb_infinity in Hyi. subst y.
    auto using float_le_infinity. }
  assert (Hxy : (x =? y)%float = true -> float_le x y /\ float_le y x).
  { unfold float_le. rewrite FloatAxioms.eqb_spec, !leb_spec. intros He.
    split; apply SFeqb_leb; [|rewrite SFeqb_sym]; exact He. }
  destruct ((x =? 0) && (x =? y))%float eqn:Hz.
  { apply andb_true_iff in Hz as [_ He]. destruct (Hxy He).
    destruct (get_sign x); auto using float_le_refl. }
  destruct (y <? x)%float eqn:Hlt.
  - repeat split; auto using float_le_refl.
    unfold float_le. rewrite leb_spec. apply SFltb_leb.
    rewrite <- ltb_spec. exact Hlt.
  - repeat split; auto using float_le_refl.
    unfold float_le. rewrite leb_spec. rewrite ltb_spec in Hlt.
    apply SFleb_total; rewrite <- ?is_nan_spec; assumption.
Qed.

Lemma float_le_antisym x y :
  float_le x y -> float_le y x -> (x =? y)%float = true.
Proof.
  unfold float_le. rewrite FloatAxioms.eqb_spec, !leb_spec.
  apply SFleb_antisym.
Qed.

Lemma float_eqb_refl x : is_nan x = false -> (x =? x)%float = true.
Proof.
  unfold is_nan. destruct (x =? x)%float; [reflexivity | discriminate].
Qed.

(** ** Height and width *)

Section SizeProperties.

Variable hgt wid : Drawable -> float.

Lemma Height_loop_fold ds : forall h,
  Height_loop hgt ds h = fold_left PrimFloat.add (map hgt ds) h.
Proof. induction ds as [|d ds IH]; intros h; cbn; [reflexivity | apply IH]. Qed.

Lemma Width_loop_fold ds : forall w,
  Width_loop wid ds w = fold_left math_Max (map wid ds) w.
Proof. induction ds as [|d ds IH]; intros w; cbn; [reflexivity | apply IH]. Qed.

(** With no NaN about, the loop of [Width] ends on the greatest of its
    starting value and the items' widths. *)
Lemma Width_loop_greatest ds : forall maxW,
  is_nan maxW = false ->
  (forall d, In d ds -> is_nan (wid d) = false) ->
  is_nan (Width_loop wid ds maxW) = false
  /\ float_le maxW (Width_loop wid ds maxW)
  /\ (forall d, In d ds -> float_le (wid d) (Width_loop wid ds maxW))
  /\ (Width_loop wid ds maxW = maxW
      \/ exists d, In d ds /\ Width_loop wid ds maxW = wid d).
Proof.
  induction ds as [|d ds IH]; intros maxW Hacc Hds; cbn [Width_loop].
  - repeat split;
      [exact Hacc | apply float_le_refl, Hacc | intros d []
      | left; reflexivity].
  - assert (Hd : is_nan (wid d) = false) by (apply Hds; left; reflexivity).
    destruct (math_Max_spec maxW (wid d) Hacc Hd) as (Hsel & Hle1 & Hle2).
    assert (Hm : is_nan (math_Max maxW (wid d)) = false)
      by (destruct Hsel as [-> | ->]; assumption).
    destruct (IH (math_Max maxW (wid d)) Hm) as (Hn & Hge & Hall & Hin).
    { intros d' Hd'. apply Hds. right. exact Hd'. }
    split; [exact Hn|]. split; [eapply float_le_trans; eassumption|]. split.
    + intros d' [<- | Hd'];
        [eapply float_le_trans; eassumption | apply Hall, Hd'].
    + destruct Hin as [Heq | (d' & Hd' & Heq)].
      * destruct Hsel as [Hsel | Hsel]; rewrite Heq, Hsel;
          [left; reflexivity | right; exists d; split; [left|]; reflexivity].
      * right. exists d'. split; [right; exact Hd' | exact Heq].
Qed.

(** With the heights and widths of the drawables given as functions:
    [Height] is the sum, taken from zero in the order of the contents, of
    the nested items' heights, and [Width] is the greatest of zero and the
    nested items' widths (none being NaN). *)
Theorem Height_is_sum_and_Width_is_max_with_zero chap :
  Height hgt chap = float64_sum (map hgt (contents chap))
  /\ (forall p, Height hgt (with_heading p chap) = Height hgt chap)
  /\ (forall show, Height hgt (SetShowNumbering show chap) = Height hgt chap)
  /\ (forall include,
        Height hgt (SetIncludeInTOC include chap) = Height hgt chap)
  /\ Width wid chap = float64_max_with_zero (map wid (contents chap))
  /\ (contents chap = [] -> Width wid chap = 0%float)
  /\ ((forall d, In d (contents chap) -> is_nan (wid d) = false) ->
      float_le 0 (Width wid chap)
      /\ (forall d, In d (contents chap) -> float_le (wid d) (Width wid chap))
      /\ (Width wid chap = 0%float
          \/ exists d, In d (contents chap) /\ Width wid chap = wid d))
  /\ ((forall d, In d (contents chap) -> is_nan (wid d) = false) ->
      (exists d, In d (contents chap) /\ float_le 0 (wid d)) ->
      exists d,
        In d (contents chap)
        /\ (Width wid chap =? wid d)%float = true
        /\ forall d', In d' (contents chap) -> float_le (wid d') (wid d)).
Proof.
  split; [apply Height_loop_fold|].
  split; [reflexivity|].
  split; [intros []; reflexivity|].
  split; [reflexivity|].
  split; [apply Width_loop_fold|].
  split; [unfold Width; intros ->; reflexivity|].
  split.
  - intros Hnan.
    destruct (Width_loop_greatest (contents chap) 0%float eq_refl Hnan)
      as (_ & Hge & Hall & Hin).
    repeat split; assumption.
  - intros Hnan (d0 & Hd0 & Hpos).
    destruct (Width_loop_greatest (contents chap) 0%float eq_refl Hnan)
      as (_ & Hge & Hall & [Hzero | (d & Hd & Heq)]);
      fold (Width wid chap) in *.
    + exists d0. split; [exact Hd0|]. split.
      * rewrite Hzero. apply float_le_antisym; [exact Hpos|].
        rewrite <- Hzero. apply Hall, Hd0.
      * intros d' Hd'. apply (float_le_trans _ 0%float); [|exact Hpos].
        rewrite <- Hzero. apply Hall, Hd'.
    + exists d. split; [exact Hd|]. split.
      * rewrite Heq. apply float_eqb_refl, Hnan, Hd.
      * intros d' Hd'. rewrite <- Heq. apply Hall, Hd'.
Qed.

End SizeProperties.

(** ** The heading's text *)







(* ------------------------------------------------------------------ *)
(** * Properties of the pagination *)

(** ** Indexing the last block *)

Lemma slice_index_last_nil {A : Type} :
  slice_index (@nil A) (Z.of_nat (length (@nil A)) - 1) = None.
Proof. reflexivity. Qed.

Lemma slice_index_last_snoc {A : Type} (init : list A) (x : A) :
  slice_index (init ++ [x]) (Z.of_nat (length (init ++ [x])) - 1) = Some x.
Proof.
  unfold slice_index. rewrite length_app. cbn [length].
  replace (Z.of_nat (length init + 1) - 1) with (Z.of_nat (length init)) by lia.
  rewrite Nat2Z.id.
  destruct (Z.of_nat (length init) <? 0) eqn:Hneg;
    [apply Z.ltb_lt in Hneg; lia|].
  destruct (Z.of_nat (length init + 1) <=? Z.of_nat (length init)) eqn:Hge;
    [apply Z.leb_le in Hge; lia|].
  cbn [orb]. apply list_lookup_middle. reflexivity.
Qed.

Lemma insert_last_snoc {A : Type} (init : list A) (x y : A) :
  <[Z.to_nat (Z.of_nat (length (init ++ [x])) - 1) := y]> (init ++ [x])
  = init ++ [y].
Proof.
  rewrite length_app. cbn [length].
  replace (Z.to_nat (Z.of_nat (length init + 1) - 1)) with (length init + 0)%nat
    by lia.
  rewrite insert_app_r. reflexivity.
Qed.

(** A sequence is empty or ends in a last element. *)
Lemma nil_or_snoc {A : Type} (l : list A) :
  l = [] \/ exists init x, l = init ++ [x].
Proof.
  induction l as [|x init _] using rev_ind; [left | right]; eauto.
Qed.

Section PaginationProperties.

Context {Block Cursor : Type}.
Variable mergeBlocks : Block -> Block -> Block.
Variable pgen :
  paragraph -> DrawContext Cursor ->
  list Block * DrawContext Cursor * option error.
Variable dgen :
  Drawable -> DrawContext Cursor ->
  (list Block * DrawContext Cursor * option error)
  * list tableOfContentsEntry.

Local Abbreviation body := (loop_body mergeBlocks dgen).
Local Abbreviation loop := (contents_loop mergeBlocks dgen).
Local Abbreviation generate := (GeneratePageBlocks mergeBlocks pgen dgen).
Local Abbreviation body_spec := (body_spec mergeBlocks dgen).
Local Abbreviation never_turns_back := (never_turns_back dgen).
Local Abbreviation skipped := (skipped dgen).
Local Abbreviation yields_blocks := (yields_blocks dgen).

(** *** One turn of the loop, case by case *)

Lemma loop_body_error d blocks ctx registry nb c e reg :
  dgen d ctx = ((nb, c, Some e), reg) ->
  body d blocks ctx registry
  = (Done (Returns blocks ctx (Some e)), registry ++ reg).
Proof. intros Hd. unfold loop_body. rewrite Hd. reflexivity. Qed.

Lemma loop_body_skip d blocks ctx registry c reg :
  dgen d ctx = (([], c, None), reg) ->
  body d blocks ctx registry = (Next blocks ctx, registry ++ reg).
Proof. intros Hd. unfold loop_body. rewrite Hd. reflexivity. Qed.

Lemma loop_body_merge d init last ctx registry first rest c reg :
  dgen d ctx = ((first :: rest, c, None), reg) ->
  body d (init ++ [last]) ctx registry
  = (Next (init ++ [mergeBlocks last first] ++ rest) c, registry ++ reg).
Proof.
  intros Hd. unfold loop_body. rewrite Hd.
  rewrite slice_index_last_snoc, insert_last_snoc.
  rewrite <- app_assoc. reflexivity.
Qed.

Lemma loop_body_panic d ctx registry first rest c reg :
  dgen d ctx = ((first :: rest, c, None), reg) ->
  body d [] ctx registry
  = (Done (Panics index_out_of_range), registry ++ reg).
Proof. intros Hd. unfold loop_body. rewrite Hd. reflexivity. Qed.


Lemma loop_body_cases d blocks ctx registry :
  body_spec d blocks ctx registry (body d blocks ctx registry).
Proof.
  destruct (dgen d ctx) as [[[nb c] [e|]] reg] eqn:Hd.
  - erewrite loop_body_error by eassumption. econstructor; eassumption.
  - destruct nb as [|first rest].
    + erewrite loop_body_skip by eassumption. econstructor; eassumption.
    + destruct (nil_or_snoc blocks) as [->|[init [last ->]]].
      * erewrite loop_body_panic by eassumption.
        eapply body_panic; [eassumption | reflexivity].
      * erewrite loop_body_merge by eassumption.
        eapply body_merge; [eassumption | reflexivity].
Qed.

(** *** The loop over a sequence of items *)

Lemma contents_loop_cons d ds blocks ctx registry :
  loop (d :: ds) blocks ctx registry =
  match body d blocks ctx registry with
  | (Next blocks' ctx', registry') => loop ds blocks' ctx' registry'
  | (Done o, registry') => (o, registry')
  end.
Proof. reflexivity. Qed.

(** A loop that comes to its end without an error has run every item. *)
Lemma contents_loop_app pre rest blocks ctx registry b1 c1 r1 :
  loop pre blocks ctx registry = (Returns b1 c1 None, r1) ->
  loop (pre ++ rest) blocks ctx registry = loop rest b1 c1 r1.
Proof.
  revert blocks ctx registry.
  induction pre as [|d pre IH]; intros blocks ctx registry Hpre.
  - cbn in Hpre. injection Hpre as -> -> ->. reflexivity.
  - rewrite <- app_comm_cons, contents_loop_cons.
    rewrite contents_loop_cons in Hpre.
    destruct (loop_body_cases d blocks ctx registry);
      try discriminate Hpre; apply IH; exact Hpre.
Qed.

(** The loop only appends to the registry, and nothing it returns depends
    on what the registry held. *)
Lemma loop_body_registry d blocks ctx registry :
  body d blocks ctx registry
  = (fst (body d blocks ctx []), registry ++ snd (body d blocks ctx [])).
Proof.
  unfold loop_body.
  destruct (dgen d ctx) as [[[nb c] [e|]] reg]; [reflexivity|].
  destruct nb as [|first rest]; [reflexivity|].
  destruct (slice_index blocks (Z.of_nat (length blocks) - 1)); reflexivity.
Qed.

Lemma contents_loop_registry ds blocks ctx registry :
  loop ds blocks ctx registry
  = (fst (loop ds blocks ctx []), registry ++ snd (loop ds blocks ctx [])).
Proof.
  revert blocks ctx registry.
  induction ds as [|d ds IH]; intros blocks ctx registry.
  - cbn. rewrite app_nil_r. reflexivity.
  - rewrite !contents_loop_cons, loop_body_registry.
    destruct (body d blocks ctx []) as [[blocks' ctx'|o] r0]; cbn [fst snd].
    + rewrite (IH blocks' ctx' (registry ++ r0)), (IH blocks' ctx' r0).
      cbn [fst snd]. rewrite app_assoc. reflexivity.
    + reflexivity.
Qed.

(** Items that register nothing leave the registry as it was. *)
Lemma contents_loop_registers_nothing ds blocks ctx :
  (forall d c, In d ds -> snd (dgen d c) = []) ->
  snd (loop ds blocks ctx []) = [].
Proof.
  revert blocks ctx.
  induction ds as [|d ds IH]; intros blocks ctx Hquiet; [reflexivity|].
  rewrite contents_loop_cons.
  assert (Hd : forall c, snd (dgen d c) = [])
    by (intros c; apply Hquiet; left; reflexivity).
  assert (Hds : forall d' c, In d' ds -> snd (dgen d' c) = [])
    by (intros d' c Hin; apply Hquiet; right; exact Hin).
  destruct (loop_body_cases d blocks ctx []) as
    [nb c e reg Hg|c reg Hg|init last first rest c reg Hg _
    |first rest c reg Hg _];
    specialize (Hd ctx); rewrite Hg in Hd; cbn in Hd; subst reg; cbn [app].
  - reflexivity.
  - apply IH, Hds.
  - apply IH, Hds.
  - reflexivity.
Qed.

(** The two steps between the heading and the loop. *)
Lemma GeneratePageBlocks_heading_ok chap ctx registry hb hctx :
  pgen (heading chap) ctx = (hb, hctx, None) ->
  generate chap ctx registry
  = loop (contents chap) hb (heading_advance hb hctx)
      (include_in_toc chap (heading_advance hb hctx) registry).
Proof. intros Hh. unfold GeneratePageBlocks. rewrite Hh. reflexivity. Qed.

Lemma GeneratePageBlocks_heading_error chap ctx registry hb hctx e :
  pgen (heading chap) ctx = (hb, hctx, Some e) ->
  generate chap ctx registry = (Returns hb hctx (Some e), registry).
Proof. intros Hh. unfold GeneratePageBlocks. rewrite Hh. reflexivity. Qed.

(** *** The page counter after the heading *)

Lemma incr_in_range p :
  GoInt.in_range p -> p < GoInt.int_max -> GoInt.incr p = p + 1.
Proof.
  unfold GoInt.in_range, GoInt.int_min, GoInt.int_max, GoInt.incr, GoInt.wrap.
  intros Hr Hlt.
  replace (p + 1 + 2 ^ 63) with (p + 1 + 2 ^ 63 + 0 * 2 ^ 64) by lia.
  rewrite Z.mod_add by lia. rewrite Z.mod_small by lia. lia.
Qed.

Lemma heading_advance_wrapped (hb : list Block) (hctx : DrawContext Cursor) :
  (1 < length hb)%nat -> heading_advance hb hctx = next_page hctx.
Proof.
  intros Hlen. unfold heading_advance.
  destruct (1 <? Z.of_nat (length hb)) eqn:Hcmp; [reflexivity|].
  apply Z.ltb_ge in Hcmp. lia.
Qed.

Lemma heading_advance_fits (hb : list Block) (hctx : DrawContext Cursor) :
  (length hb <= 1)%nat -> heading_advance hb hctx = hctx.
Proof.
  intros Hlen. unfold heading_advance.
  destruct (1 <? Z.of_nat (length hb)) eqn:Hcmp; [|reflexivity].
  apply Z.ltb_lt in Hcmp. lia.
Qed.

(** C1, as amended: when the heading's generation succeeds with more than
    one block, the context that step 2 hands on (to the registry entry and
    to the first nested item) has the cursor of the context that the
    heading's generation RETURNED and its page counter incremented as a
    Go [int]: exactly one greater than the returned counter when that is
    below the largest [int], and so exactly one greater than the incoming
    counter when moreover the heading's generation returned the counter it
    received. *)
Theorem heading_overflow_advances_returned_page
    chap ctx registry hb hctx :
  pgen (heading chap) ctx = (hb, hctx, None) ->
  (1 < length hb)%nat ->
  let ctx2 := heading_advance hb hctx in
  GeneratePageBlocks mergeBlocks pgen dgen chap ctx registry
  = contents_loop mergeBlocks dgen (contents chap) hb ctx2
      (include_in_toc chap ctx2 registry)
  /\ cursor ctx2 = cursor hctx
  /\ Page ctx2 = GoInt.incr (Page hctx)
  /\ (GoInt.in_range (Page hctx) -> Page hctx < GoInt.int_max ->
      Page ctx2 = Page hctx + 1)
  /\ (Page hctx = Page ctx ->
      GoInt.in_range (Page ctx) -> Page ctx < GoInt.int_max ->
      Page ctx2 = Page ctx + 1).
Proof.
  intros Hh Hlen ctx2. subst ctx2.
  split; [apply GeneratePageBlocks_heading_ok, Hh|].
  rewrite (heading_advance_wrapped hb hctx Hlen). cbn [next_page cursor Page].
  repeat split.
  - apply incr_in_range.
  - intros Heq Hr Hlt. rewrite Heq. apply incr_in_range; assumption.
Qed.

(** *** The registry entry *)

(** C2: when the heading's generation succeeds, a chapter that is included
    in the registry adds exactly one entry (title, number, level 0, the
    page after the heading's advance), and the loop over the nested items
    starts from the registry that already holds it; whatever else the call
    leaves in the registry was put there by the nested items themselves
    (nothing, when none of them registers).  A chapter that is not
    included adds no entry, and the blocks, context and error of the call
    are those of the included case. *)
Theorem registry_gets_one_entry_before_contents
    chap ctx registry hb hctx :
  pgen (heading chap) ctx = (hb, hctx, None) ->
  let ctx2 := heading_advance hb hctx in
  let entry := mkEntry (title chap) (number chap) 0 (Page ctx2) in
  let nested :=
    snd (contents_loop mergeBlocks dgen (contents chap) hb ctx2 []) in
  (includeInTOC chap = true ->
     GeneratePageBlocks mergeBlocks pgen dgen chap ctx registry
     = contents_loop mergeBlocks dgen (contents chap) hb ctx2
         (registry ++ [entry])
     /\ snd (GeneratePageBlocks mergeBlocks pgen dgen chap ctx registry)
        = registry ++ [entry] ++ nested)
  /\ (includeInTOC chap = false ->
     GeneratePageBlocks mergeBlocks pgen dgen chap ctx registry
     = contents_loop mergeBlocks dgen (contents chap) hb ctx2 registry
     /\ snd (GeneratePageBlocks mergeBlocks pgen dgen chap ctx registry)
        = registry ++ nested)
  /\ ((forall d c, In d (contents chap) -> snd (dgen d c) = []) ->
      nested = [])
  /\ fst (GeneratePageBlocks mergeBlocks pgen dgen
            (SetIncludeInTOC false chap) ctx registry)
     = fst (GeneratePageBlocks mergeBlocks pgen dgen
              (SetIncludeInTOC true chap) ctx registry).
Proof.
  intros Hh ctx2 entry nested. subst ctx2 entry nested.
  pose proof (GeneratePageBlocks_heading_ok chap ctx registry hb hctx Hh) as Hg.
  split; [intros Hin; split | split; [intros Hout; split | split]].
  - rewrite Hg. unfold include_in_toc, TableOfContents_add.
    rewrite Hin. reflexivity.
  - rewrite Hg. unfold include_in_toc, TableOfContents_add. rewrite Hin.
    rewrite contents_loop_registry. cbn [snd].
    rewrite <- app_assoc. reflexivity.
  - rewrite Hg. unfold include_in_toc. rewrite Hout. reflexivity.
  - rewrite Hg. unfold include_in_toc. rewrite Hout.
    rewrite contents_loop_registry. reflexivity.
  - apply contents_loop_registers_nothing.
  - rewrite (GeneratePageBlocks_heading_ok (SetIncludeInTOC false chap)
               ctx registry hb hctx Hh).
    rewrite (GeneratePageBlocks_heading_ok (SetIncludeInTOC true chap)
               ctx registry hb hctx Hh).
    cbn [SetIncludeInTOC contents].
    rewrite contents_loop_registry.
    rewrite (contents_loop_registry (contents chap) hb
               (heading_advance hb hctx) (include_in_toc _ _ _)).
    reflexivity.
Qed.

(** *** A nested item that fails *)

Lemma contents_loop_error_at
    pre d post blocks ctx registry b1 c1 r1 nb c' e reg :
  loop pre blocks ctx registry = (Returns b1 c1 None, r1) ->
  dgen d c1 = ((nb, c', Some e), reg) ->
  loop (pre ++ d :: post) blocks ctx registry
  = (Returns b1 c1 (Some e), r1 ++ reg).
Proof.
  intros Hpre Hd.
  rewrite (contents_loop_app pre (d :: post) _ _ _ _ _ _ Hpre).
  rewrite contents_loop_cons.
  rewrite (loop_body_error d b1 c1 r1 nb c' e reg Hd). reflexivity.
Qed.

(** C3: when the loop has run the items [pre] without an error and the
    next item's generation returns an error, the call returns at once the
    blocks accumulated from the heading and [pre], the context that was
    handed to the failing item (not the one it returned) and that error;
    the items [post] after it play no part in the result. *)
Theorem nested_error_stops_the_call
    chap ctx registry hb hctx pre d post b1 c1 r1 nb c' e reg :
  pgen (heading chap) ctx = (hb, hctx, None) ->
  contents chap = pre ++ d :: post ->
  contents_loop mergeBlocks dgen pre hb (heading_advance hb hctx)
    (include_in_toc chap (heading_advance hb hctx) registry)
  = (Returns b1 c1 None, r1) ->
  dgen d c1 = ((nb, c', Some e), reg) ->
  GeneratePageBlocks mergeBlocks pgen dgen chap ctx registry
  = (Returns b1 c1 (Some e), r1 ++ reg).
Proof.
  intros Hh Hsplit Hpre Hd.
  rewrite (GeneratePageBlocks_heading_ok chap ctx registry hb hctx Hh).
  rewrite Hsplit. eapply contents_loop_error_at; eassumption.
Qed.

(** *** A nested item that succeeds *)

(** C4, as amended (the merge needs an accumulated block to merge into):
    for an item whose generation returns no error, handed the context
    [ctx] when the accumulated sequence is [blocks]: with zero blocks the
    next item starts from the same sequence and the same context (the
    returned context is dropped); otherwise, the accumulated sequence
    ending in a block [last], the next item starts from the sequence in
    which [last] has absorbed the item's first block, followed by the
    item's remaining blocks as they are, and from the item's returned
    context. *)
Theorem nested_item_merges_into_last_block
    d ds blocks ctx registry nb c reg :
  dgen d ctx = ((nb, c, None), reg) ->
  (nb = [] ->
     loop_body mergeBlocks dgen d blocks ctx registry
     = (Next blocks ctx, registry ++ reg)
     /\ contents_loop mergeBlocks dgen (d :: ds) blocks ctx registry
        = contents_loop mergeBlocks dgen ds blocks ctx (registry ++ reg))
  /\ (forall first rest init last,
        nb = first :: rest -> blocks = init ++ [last] ->
        loop_body mergeBlocks dgen d blocks ctx registry
        = (Next (init ++ [mergeBlocks last first] ++ rest) c,
           registry ++ reg)
        /\ contents_loop mergeBlocks dgen (d :: ds) blocks ctx registry
           = contents_loop mergeBlocks dgen ds
               (init ++ [mergeBlocks last first] ++ rest) c
               (registry ++ reg)).
Proof.
  intros Hd. split.
  - intros ->. rewrite contents_loop_cons.
    rewrite (loop_body_skip d blocks ctx registry c reg Hd).
    split; reflexivity.
  - intros first rest init last -> ->. rewrite contents_loop_cons.
    rewrite (loop_body_merge d init last ctx registry first rest c reg Hd).
    split; reflexivity.
Qed.

(** *** Growth of the blocks and of the page counter *)

Lemma loop_body_length d blocks ctx registry blocks' ctx' registry' :
  body d blocks ctx registry = (Next blocks' ctx', registry') ->
  (length blocks <= length blocks')%nat.
Proof.
  intros Hb.
  destruct (loop_body_cases d blocks ctx registry) as
    [nb c e reg Hg|c reg Hg|init last first rest c reg Hg Hbl
    |first rest c reg Hg Hbl];
    inversion Hb; subst.
  - reflexivity.
  - rewrite !length_app. cbn [length]. lia.
Qed.

Lemma contents_loop_length ds blocks ctx registry blocks' ctx' err registry' :
  loop ds blocks ctx registry = (Returns blocks' ctx' err, registry') ->
  (length blocks <= length blocks')%nat.
Proof.
  revert blocks ctx registry.
  induction ds as [|d ds IH]; intros blocks ctx registry Hl.
  - cbn in Hl. inversion Hl; subst. reflexivity.
  - rewrite contents_loop_cons in Hl.
    destruct (body d blocks ctx registry) as [[b2 c2|o] r2] eqn:Hb.
    + pose proof (loop_body_length _ _ _ _ _ _ _ Hb). apply IH in Hl. lia.
    + destruct (loop_body_cases d blocks ctx registry);
        inversion Hb; subst; inversion Hl; subst; reflexivity.
Qed.


Lemma loop_body_page d blocks ctx registry blocks' ctx' registry' :
  never_turns_back ->
  body d blocks ctx registry = (Next blocks' ctx', registry') ->
  Page ctx <= Page ctx'.
Proof.
  intros Hmono Hb.
  destruct (loop_body_cases d blocks ctx registry) as
    [nb c e reg Hg|c reg Hg|init last first rest c reg Hg Hbl
    |first rest c reg Hg Hbl];
    inversion Hb; subst.
  - reflexivity.
  - eapply Hmono, Hg.
Qed.

Lemma contents_loop_page ds blocks ctx registry blocks' ctx' err registry' :
  never_turns_back ->
  loop ds blocks ctx registry = (Returns blocks' ctx' err, registry') ->
  Page ctx <= Page ctx'.
Proof.
  intros Hmono. revert blocks ctx registry.
  induction ds as [|d ds IH]; intros blocks ctx registry Hl.
  - cbn in Hl. inversion Hl; subst. reflexivity.
  - rewrite contents_loop_cons in Hl.
    destruct (body d blocks ctx registry) as [[b2 c2|o] r2] eqn:Hb.
    + pose proof (loop_body_page _ _ _ _ _ _ _ Hmono Hb). apply IH in Hl. lia.
    + destruct (loop_body_cases d blocks ctx registry);
        inversion Hb; subst; inversion Hl; subst; reflexivity.
Qed.

(** C5, as amended: let no collaborator return a smaller page counter than
    it receives, let the incoming counter be a Go [int], and let the
    heading, when it overflows, return a counter below the largest [int]
    (so that the increment of step 2 does not wrap).  Then (a) no turn of
    the loop shortens the accumulated sequence, and the blocks returned
    are at least as many as the heading's; (b) the returned page counter
    is not below the incoming one. *)
Theorem blocks_and_page_never_go_back chap ctx registry :
  (forall p c hb c' err, pgen p c = (hb, c', err) -> Page c <= Page c') ->
  never_turns_back ->
  GoInt.in_range (Page ctx) ->
  (forall hb hctx err,
      pgen (heading chap) ctx = (hb, hctx, err) ->
      (1 < length hb)%nat -> Page hctx < GoInt.int_max) ->
  (forall d blocks c r blocks' c' r',
      loop_body mergeBlocks dgen d blocks c r = (Next blocks' c', r') ->
      (length blocks <= length blocks')%nat)
  /\ (forall hb hctx blocks' c' err r',
        pgen (heading chap) ctx = (hb, hctx, None) ->
        GeneratePageBlocks mergeBlocks pgen dgen chap ctx registry
        = (Returns blocks' c' err, r') ->
        (length hb <= length blocks')%nat)
  /\ (forall blocks' c' err r',
        GeneratePageBlocks mergeBlocks pgen dgen chap ctx registry
        = (Returns blocks' c' err, r') ->
        Page ctx <= Page c').
Proof.
  intros Hpmono Hdmono Hrange Hroom.
  split; [|split].
  - intros d blocks c r blocks' c' r'. apply loop_body_length.
  - intros hb hctx blocks' c' err r' Hh Hg.
    rewrite (GeneratePageBlocks_heading_ok chap ctx registry hb hctx Hh) in Hg.
    eapply contents_loop_length, Hg.
  - intros blocks' c' err r' Hg.
    destruct (pgen (heading chap) ctx) as [[hb hctx] [e|]] eqn:Hh.
    + rewrite (GeneratePageBlocks_heading_error chap ctx registry hb hctx e Hh)
        in Hg.
      inversion Hg; subst. eapply Hpmono, Hh.
    + rewrite (GeneratePageBlocks_heading_ok chap ctx registry hb hctx Hh)
        in Hg.
      apply (contents_loop_page _ _ _ _ _ _ _ _ Hdmono) in Hg.
      pose proof (Hpmono _ _ _ _ _ Hh) as Hle.
      enough (Page hctx <= Page (heading_advance hb hctx)) by lia.
      destruct (Nat.lt_ge_cases 1 (length hb)) as [Hlen|Hlen].
      * rewrite (heading_advance_wrapped hb hctx Hlen).
        cbn [next_page Page]. rewrite incr_in_range.
        -- lia.
        -- specialize (Hroom hb hctx None eq_refl Hlen).
           unfold GoInt.in_range, GoInt.int_min, GoInt.int_max in *. lia.
        -- apply (Hroom hb hctx None eq_refl Hlen).
      * rewrite (heading_advance_fits hb hctx Hlen). lia.
Qed.

(** *** Indexing the last accumulated block *)


Lemma contents_loop_skipped pre (blocks : list Block) ctx registry :
  Forall (skipped ctx) pre ->
  exists r1, loop pre blocks ctx registry = (Returns blocks ctx None, r1).
Proof.
  intros Hpre. revert registry.
  induction Hpre as [|d pre [c [reg Hd]] _ IH]; intros registry.
  - eexists. reflexivity.
  - rewrite contents_loop_cons.
    rewrite (loop_body_skip d blocks ctx registry c reg Hd). apply IH.
Qed.

Lemma contents_loop_panics_at pre d post ctx registry :
  Forall (skipped ctx) pre -> yields_blocks ctx d ->
  exists r, loop (pre ++ d :: post) [] ctx registry
            = (Panics index_out_of_range, r).
Proof.
  intros Hpre (first & rest & c & reg & Hd).
  destruct (contents_loop_skipped pre [] ctx registry Hpre) as [r1 Hl].
  rewrite (contents_loop_app pre (d :: post) _ _ _ _ _ _ Hl).
  rewrite contents_loop_cons.
  rewrite (loop_body_panic d ctx r1 first rest c reg Hd).
  eexists. reflexivity.
Qed.

Lemma contents_loop_no_panic ds blocks ctx registry msg r :
  blocks <> [] -> loop ds blocks ctx registry <> (Panics msg, r).
Proof.
  revert blocks ctx registry.
  induction ds as [|d ds IH]; intros blocks ctx registry Hne; [discriminate|].
  rewrite contents_loop_cons.
  destruct (loop_body_cases d blocks ctx registry) as
    [nb c e reg Hg|c reg Hg|init last first rest c reg Hg Hbl
    |first rest c reg Hg Hbl].
  - discriminate.
  - apply IH, Hne.
  - apply IH. intros Hnil. apply app_eq_nil in Hnil as [_ Hnil].
    discriminate Hnil.
  - contradiction.
Qed.

Lemma contents_loop_panic_inv ds ctx registry msg r :
  loop ds [] ctx registry = (Panics msg, r) ->
  exists pre d post,
    ds = pre ++ d :: post /\ Forall (skipped ctx) pre /\ yields_blocks ctx d.
Proof.
  revert registry.
  induction ds as [|d ds IH]; intros registry Hl; [discriminate Hl|].
  rewrite contents_loop_cons in Hl.
  destruct (loop_body_cases d [] ctx registry) as
    [nb c e reg Hg|c reg Hg|init last first rest c reg Hg Hbl
    |first rest c reg Hg Hbl].
  - discriminate Hl.
  - destruct (IH _ Hl) as (pre & d' & post & -> & Hpre & Hd').
    exists (d :: pre), d', post. repeat split; [|exact Hd'].
    constructor; [exists c, reg; exact Hg | exact Hpre].
  - destruct init; discriminate Hbl.
  - exists [], d, ds. repeat split; [constructor|].
    exists first, rest, c, reg. exact Hg.
Qed.

(** C9, as amended: the call ends in an index-out-of-range panic exactly
    when the heading's generation succeeds with an empty block sequence
    and some nested item, reached after items that returned no block and
    no error, returns at least one block WITHOUT AN ERROR; the merge then
    indexes the last element of an empty accumulated sequence.  When the
    heading yields one block or more, no call panics. *)
Theorem index_out_of_range_iff_heading_is_empty chap ctx registry :
  (forall hctx pre d post,
      pgen (heading chap) ctx = ([], hctx, None) ->
      contents chap = pre ++ d :: post ->
      Forall (skipped hctx) pre -> yields_blocks hctx d ->
      exists r,
        GeneratePageBlocks mergeBlocks pgen dgen chap ctx registry
        = (Panics index_out_of_range, r))
  /\ (forall hb hctx err msg r,
        pgen (heading chap) ctx = (hb, hctx, err) -> hb <> [] ->
        GeneratePageBlocks mergeBlocks pgen dgen chap ctx registry
        <> (Panics msg, r))
  /\ (forall msg r,
        GeneratePageBlocks mergeBlocks pgen dgen chap ctx registry
        = (Panics msg, r) ->
        exists hctx pre d post,
          pgen (heading chap) ctx = ([], hctx, None)
          /\ contents chap = pre ++ d :: post
          /\ Forall (skipped hctx) pre /\ yields_blocks hctx d).
Proof.
  split; [|split].
  - intros hctx pre d post Hh Hsplit Hpre Hd.
    rewrite (GeneratePageBlocks_heading_ok chap ctx registry [] hctx Hh).
    rewrite heading_advance_fits by (cbn; lia).
    rewrite Hsplit. apply contents_loop_panics_at; assumption.
  - intros hb hctx [e|] msg r Hh Hne.
    + rewrite (GeneratePageBlocks_heading_error chap ctx registry hb hctx e Hh).
      discriminate.
    + rewrite (GeneratePageBlocks_heading_ok chap ctx registry hb hctx Hh).
      apply contents_loop_no_panic, Hne.
  - intros msg r Hg.
    destruct (pgen (heading chap) ctx) as [[hb hctx] [e|]] eqn:Hh.
    + rewrite (GeneratePageBlocks_heading_error chap ctx registry hb hctx e Hh)
        in Hg.
      discriminate Hg.
    + rewrite (GeneratePageBlocks_heading_ok chap ctx registry hb hctx Hh)
        in Hg.
      destruct hb as [|b hb].
      * rewrite heading_advance_fits in Hg by (cbn; lia).
        destruct (contents_loop_panic_inv _ _ _ _ _ Hg)
          as (pre & d & post & Hsplit & Hpre & Hd).
        exists hctx, pre, d, post. repeat split; assumption.
      * exfalso. revert Hg. apply contents_loop_no_panic. discriminate.
Qed.

(** *** The registry after a nested error *)

(** C10: when the chapter is included in the registry and a nested item's
    generation fails, the entry added before the loop is still in the
    registry that the call leaves: the registry is the incoming one, then
    the chapter's entry, then what the items run so far registered
    themselves (nothing, when no nested item registers). *)
Theorem registry_entry_stays_after_nested_error
    chap ctx registry hb hctx pre d post b1 c1 n1 nb c' e reg :
  includeInTOC chap = true ->
  pgen (heading chap) ctx = (hb, hctx, None) ->
  contents chap = pre ++ d :: post ->
  contents_loop mergeBlocks dgen pre hb (heading_advance hb hctx) []
  = (Returns b1 c1 None, n1) ->
  dgen d c1 = ((nb, c', Some e), reg) ->
  let entry :=
    mkEntry (title chap) (number chap) 0 (Page (heading_advance hb hctx)) in
  GeneratePageBlocks mergeBlocks pgen dgen chap ctx registry
  = (Returns b1 c1 (Some e), registry ++ [entry] ++ n1 ++ reg)
  /\ In entry (snd (GeneratePageBlocks mergeBlocks pgen dgen chap ctx registry))
  /\ ((forall d' c, In d' (contents chap) -> snd (dgen d' c) = []) ->
      snd (GeneratePageBlocks mergeBlocks pgen dgen chap ctx registry)
      = registry ++ [entry]).
Proof.
  intros Hin Hh Hsplit Hpre Hd entry.
  assert (Hg : generate chap ctx registry
               = (Returns b1 c1 (Some e), registry ++ [entry] ++ n1 ++ reg)).
  { rewrite (GeneratePageBlocks_heading_ok chap ctx registry hb hctx Hh).
    unfold include_in_toc, TableOfContents_add. rewrite Hin, Hsplit.
    fold entry.
    rewrite (contents_loop_error_at pre d post hb (heading_advance hb hctx)
               (registry ++ [entry]) b1 c1 (registry ++ [entry] ++ n1)
               nb c' e reg); [|
      rewrite contents_loop_registry, Hpre; cbn [fst snd];
      rewrite <- app_assoc; reflexivity | exact Hd].
    rewrite <- !app_assoc. reflexivity. }
  split; [exact Hg|]. rewrite Hg. cbn [snd]. split.
  - apply in_or_app. right. left. reflexivity.
  - intros Hquiet.
    pose proof (contents_loop_registers_nothing (contents chap) hb
                  (heading_advance hb hctx) Hquiet) as Hnone.
    rewrite Hsplit in Hnone.
    rewrite (contents_loop_error_at pre d post hb (heading_advance hb hctx)
               [] b1 c1 n1 nb c' e reg Hpre Hd) in Hnone.
    cbn [snd] in Hnone. rewrite Hnone. reflexivity.
Qed.

End PaginationProperties.

(* ------------------------------------------------------------------ *)
(** * The properties on the concrete document *)

Import Scenario.

Local Open Scope string_scope.

(** [Add] called with a paragraph, the chapter itself, an image, another
    chapter, nil and a subchapter: the three accepted ones are the contents,
    in the order of the calls. *)
Example intro_accepts_three_of_six :
  contents (Add_all intro_addr intro
              [para1; Drawable_ptr T_Chapter intro_addr; image3;
               Drawable_ptr T_Chapter 11%N; Drawable_nil; sub5])
  = [para1; image3; sub5].
Proof. reflexivity. Qed.

(** Heights 1.5 and 2.25 add up to 3.75, and the greater of the widths 2
    and 3 is 3. *)
Example intro_height_and_width :
  let size (d : Drawable) : float :=
    if decide (d = para1) then 1.5%float else 2.25%float in
  let span (d : Drawable) : float :=
    if decide (d = para1) then 2%float else 3%float in
  Height size (with_contents [para1; para2] intro) = 3.75%float
  /\ Width span (with_contents [para1; para2] intro) = 3%float.
Proof. split; reflexivity. Qed.

(** The numbering switched off and on again. *)
Example intro_heading_texts :
  text (heading intro) = "1. Intro"
  /\ text (heading (SetShowNumbering false intro)) = "Intro"
  /\ text (heading (SetShowNumbering true (SetShowNumbering false intro)))
     = "1. Intro".
Proof. repeat split. Qed.

(** The scenario of the specification: chapter 1, "Intro", one paragraph
    that fits, generation from page 0 with both flags set. *)
Example intro_with_one_paragraph :
  GeneratePageBlocks mergeText heading_fits draw
    (fst (Add intro_addr intro para1)) (ctx_at 0) []
  = (Returns ["1. Introbody"] (ctx_at 0) None, [mkEntry "Intro" 1 0 0]).
Proof. reflexivity. Qed.

(** The same chapter kept out of the registry. *)
Example intro_outside_the_registry :
  GeneratePageBlocks mergeText heading_fits draw
    (SetIncludeInTOC false (fst (Add intro_addr intro para1))) (ctx_at 0) []
  = (Returns ["1. Introbody"] (ctx_at 0) None, []).
Proof. reflexivity. Qed.

(** On the document: a heading on two blocks that returns the context
    it was given; the contents start on page 5 when the call started on
    page 4. *)
Lemma heading_overflow_advances_returned_page_witness :
  heading_wraps (heading intro) (ctx_at 4)
  = ([EmptyString; "1. Intro"], ctx_at 4, None)
  /\ Page (heading_advance [EmptyString; "1. Intro"] (ctx_at 4)) = 5.
Proof.
  split; [reflexivity|].
  destruct (heading_overflow_advances_returned_page mergeText heading_wraps
              draw intro (ctx_at 4) [] [EmptyString; "1. Intro"] (ctx_at 4)
              eq_refl)
    as (_ & _ & _ & Hplus & _).
  - cbn. lia.
  - apply Hplus.
    + unfold GoInt.in_range, GoInt.int_min, GoInt.int_max. cbn. lia.
    + unfold GoInt.int_max. cbn. lia.
Defined.

(** The page after an overflowing heading is not always one greater than
    the page passed into the call: when the heading turns the page in the
    context it returns, the contents start on page 2 of a call that started
    on page 0. *)
Lemma page_after_heading_is_not_incoming_plus_one :
  ~ (forall (Block Cursor : Type)
       (pgen : paragraph -> DrawContext Cursor ->
               list Block * DrawContext Cursor * option error)
       (chap : Chapter) (ctx : DrawContext Cursor) hb hctx,
       pgen (heading chap) ctx = (hb, hctx, None) ->
       (1 < length hb)%nat ->
       Page (heading_advance hb hctx) = Page ctx + 1).
Proof.
  intros Hclaim.
  assert (H := Hclaim string unit heading_turns_page intro (ctx_at 0)
                 [EmptyString; "1. Intro"] (ctx_at 1) eq_refl
                 ltac:(cbn; lia)).
  vm_compute in H. discriminate H.
Qed.

(** On the document: the chapter with a paragraph and a subchapter; its
    own entry comes first, the subchapter's after it. *)
Lemma registry_gets_one_entry_before_contents_witness :
  heading_fits (heading intro) (ctx_at 0) = (["1. Intro"], ctx_at 0, None)
  /\ snd (GeneratePageBlocks mergeText heading_fits draw
            (with_contents [para1; sub5] intro) (ctx_at 0) [])
     = [mkEntry "Intro" 1 0 0; mkEntry "Scope" 1 1 0].
Proof.
  split; [reflexivity|].
  destruct (registry_gets_one_entry_before_contents mergeText heading_fits
              draw (with_contents [para1; sub5] intro) (ctx_at 0) []
              ["1. Intro"] (ctx_at 0) eq_refl) as (Hin & _).
  destruct (Hin eq_refl) as [_ Hsnd]. exact Hsnd.
Defined.

(** On the document: the image fails after two paragraphs; their blocks
    and page 1 come back, not page 8 that the image returned, and the
    paragraph after the image is not drawn. *)
Lemma nested_error_stops_the_call_witness :
  GeneratePageBlocks mergeText heading_fits draw
    (with_contents [para1; para2; image3; para1] intro) (ctx_at 0) []
  = (Returns ["1. Introbodylong"; "tail"] (ctx_at 1)
       (Some "image: cannot decode"),
     [mkEntry "Intro" 1 0 0]).
Proof.
  apply (nested_error_stops_the_call mergeText heading_fits draw
           (with_contents [para1; para2; image3; para1] intro) (ctx_at 0) []
           ["1. Intro"] (ctx_at 0) [para1; para2] image3 [para1]
           ["1. Introbodylong"; "tail"] (ctx_at 1) [mkEntry "Intro" 1 0 0]
           [] (ctx_at 8) "image: cannot decode" []);
    reflexivity.
Defined.

(** On the document: the long paragraph, drawn after the heading on the
    second block. *)
Lemma nested_item_merges_into_last_block_witness :
  draw para2 (ctx_at 1) = ((["long"; "tail"], ctx_at 2, None), [])
  /\ loop_body mergeText draw para2 ["cover"; "1. Intro"] (ctx_at 1) []
     = (Next ["cover"; "1. Introlong"; "tail"] (ctx_at 2), []).
Proof.
  split; [reflexivity|].
  destruct (nested_item_merges_into_last_block mergeText draw para2 []
              ["cover"; "1. Intro"] (ctx_at 1) [] ["long"; "tail"] (ctx_at 2)
              [] eq_refl) as [_ Hmerge].
  destruct (Hmerge "long" ["tail"] ["cover"] "1. Intro" eq_refl eq_refl)
    as [Hbody _].
  exact Hbody.
Defined.

Lemma heading_wraps_never_turns_back p c hb c' err :
  heading_wraps p c = (hb, c', err) -> Page c <= Page c'.
Proof. intros H. injection H as _ <- _. reflexivity. Qed.

Lemma draw_never_turns_back : never_turns_back draw.
Proof.
  intros d c nb c' err reg H. unfold draw in H.
  repeat match type of H with
         | context [match ?x with _ => _ end] => destruct x
         end;
    injection H as _ <- _ _; cbn; lia.
Qed.

(** On the document: a heading on two blocks and two paragraphs, from
    page 0; the call returns three blocks, one more than the heading's, and
    page 2. *)
Lemma blocks_and_page_never_go_back_witness :
  GeneratePageBlocks mergeText heading_wraps draw
    (with_contents [para1; para2] intro) (ctx_at 0) []
  = (Returns [EmptyString; "1. Introbodylong"; "tail"] (ctx_at 2) None,
     [mkEntry "Intro" 1 0 1])
  /\ (2 <= 3)%nat /\ 0 <= 2.
Proof.
  destruct (blocks_and_page_never_go_back mergeText heading_wraps draw
              (with_contents [para1; para2] intro) (ctx_at 0) []
              heading_wraps_never_turns_back draw_never_turns_back)
    as (_ & Hlen & Hpage).
  - unfold GoInt.in_range, GoInt.int_min, GoInt.int_max. cbn. lia.
  - intros hb hctx err H _. injection H as _ <- _.
    unfold GoInt.int_max. cbn. lia.
  - split; [reflexivity|]. split.
    + apply (Hlen [EmptyString; "1. Intro"] (ctx_at 0)
               [EmptyString; "1. Introbodylong"; "tail"] (ctx_at 2) None
               [mkEntry "Intro" 1 0 1]); reflexivity.
    + apply (Hpage [EmptyString; "1. Introbodylong"; "tail"] (ctx_at 2) None
               [mkEntry "Intro" 1 0 1]); reflexivity.
Defined.

(** The page counter can come back smaller than it went in: on the page
    with the largest number an [int] holds, the increment after an
    overflowing heading wraps to the smallest one. *)
Lemma page_counter_wraps_at_the_largest_int :
  ~ (forall (Block Cursor : Type) (merge : Block -> Block -> Block)
       (pgen : paragraph -> DrawContext Cursor ->
               list Block * DrawContext Cursor * option error)
       (dgen : Drawable -> DrawContext Cursor ->
               (list Block * DrawContext Cursor * option error)
               * list tableOfContentsEntry)
       (chap : Chapter) (ctx : DrawContext Cursor)
       (registry : TableOfContents),
       (forall p c hb c' err, pgen p c = (hb, c', err) -> Page c <= Page c') ->
       never_turns_back dgen ->
       GoInt.in_range (Page ctx) ->
       forall blocks' c' err r',
         GeneratePageBlocks merge pgen dgen chap ctx registry
         = (Returns blocks' c' err, r') ->
         Page ctx <= Page c').
Proof.
  intros Hclaim.
  assert (H := Hclaim string unit mergeText heading_wraps draw intro
                 (ctx_at GoInt.int_max) []
                 heading_wraps_never_turns_back draw_never_turns_back).
  assert (Hr : GoInt.in_range (Page (ctx_at GoInt.int_max))).
  { unfold GoInt.in_range, GoInt.int_min, GoInt.int_max. cbn. lia. }
  specialize (H Hr [EmptyString; "1. Intro"] (ctx_at GoInt.int_min) None
                [mkEntry "Intro" 1 0 GoInt.int_min] eq_refl).
  vm_compute in H. apply H. reflexivity.
Qed.

(** [Width] is not always the greatest width among the nested items: for
    one paragraph of width -1 it is 0, the width of no item. *)
Lemma width_of_negative_items_is_zero :
  ~ (forall (width_of : Drawable -> float) (chap : Chapter),
       contents chap <> [] ->
       exists d, In d (contents chap)
                 /\ (Width width_of chap =? width_of d)%float = true
                 /\ forall d', In d' (contents chap) ->
                               float_le (width_of d') (width_of d)).
Proof.
  intros Hclaim.
  destruct (Hclaim (fun _ => (-1)%float) (with_contents [para1] intro))
    as (d & _ & Heq & _); [discriminate|].
  vm_compute in Heq. discriminate Heq.
Qed.


(** A blank heading and an item that returns a block do not always end in
    a panic: after a blank heading and an empty block, a subchapter that
    returns its heading's block together with an error makes the call
    return that error, and nothing is indexed. *)
Lemma no_panic_when_blocks_come_with_an_error :
  ~ (forall (Block Cursor : Type) (merge : Block -> Block -> Block)
       (pgen : paragraph -> DrawContext Cursor ->
               list Block * DrawContext Cursor * option error)
       (dgen : Drawable -> DrawContext Cursor ->
               (list Block * DrawContext Cursor * option error)
               * list tableOfContentsEntry)
       (chap : Chapter) (ctx hctx : DrawContext Cursor)
       (registry : TableOfContents) (pre : list Drawable) d post
       first rest c err reg,
       pgen (heading chap) ctx = ([], hctx, None) ->
       contents chap = (pre ++ d :: post)%list ->
       Forall (skipped dgen hctx) pre ->
       dgen d hctx = ((first :: rest, c, err), reg) ->
       exists msg r,
         GeneratePageBlocks merge pgen dgen chap ctx registry
         = (Panics msg, r)).
Proof.
  intros Hclaim.
  destruct (Hclaim string unit mergeText heading_blank draw
              (with_contents [block4; sub6; para1] intro)
              (ctx_at 0) (ctx_at 0) [] [block4] sub6 [para1]
              "1.2. Plates" [] (ctx_at 1) (Some "image: cannot decode")
              [mkEntry "Plates" 1 2 0] eq_refl eq_refl)
    as (msg & r & Hpanic).
  - constructor; [|constructor]. exists (ctx_at 0), []. reflexivity.
  - reflexivity.
  - vm_compute in Hpanic. discriminate Hpanic.
Qed.

(** The same blank heading before an empty block and a paragraph: the
    paragraph's block finds no block to be merged into. *)
Example blank_heading_panics :
  GeneratePageBlocks mergeText heading_blank draw
    (with_contents [block4; para1] intro) (ctx_at 0) []
  = (Panics index_out_of_range, [mkEntry "Intro" 1 0 0]).
Proof. reflexivity. Qed.

(** On the document: a subchapter registers itself, the next one
    fails; the chapter's entry and theirs are in the registry when the call
    returns the error. *)
Lemma registry_entry_stays_after_nested_error_witness :
  GeneratePageBlocks mergeText heading_fits draw
    (with_contents [sub5; sub6; para1] intro) (ctx_at 0) []
  = (Returns ["1. Intro1.1. Scope"] (ctx_at 0) (Some "image: cannot decode"),
     [mkEntry "Intro" 1 0 0; mkEntry "Scope" 1 1 0; mkEntry "Plates" 1 2 0]).
Proof.
  destruct (registry_entry_stays_after_nested_error mergeText heading_fits
              draw (with_contents [sub5; sub6; para1] intro) (ctx_at 0) []
              ["1. Intro"] (ctx_at 0) [sub5] sub6 [para1]
              ["1. Intro1.1. Scope"] (ctx_at 0) [mkEntry "Scope" 1 1 0]
              ["1.2. Plates"] (ctx_at 1) "image: cannot decode"
              [mkEntry "Plates" 1 2 0] eq_refl eq_refl eq_refl eq_refl eq_refl)
    as [Hg _].
  exact Hg.
Defined.

(* ------------------------------------------------------------------ *)
(** * Further properties of the chapter's configuration *)

Local Close Scope string_scope.

(** ** Numbering of the chapters of a creator *)

Lemma NewChapter_number c t :
  GoInt.in_range (chapters c) -> chapters c < GoInt.int_max ->
  chapters (fst (NewChapter c t)) = chapters c + 1
  /\ number (snd (NewChapter c t)) = chapters c + 1.
Proof.
  intros Hr Hlt. cbn [NewChapter fst snd chapters number].
  rewrite incr_in_range by assumption. split; reflexivity.
Qed.

Lemma in_range_succ z :
  GoInt.in_range z -> z < GoInt.int_max -> GoInt.in_range (z + 1).
Proof.
  unfold GoInt.in_range, GoInt.int_min, GoInt.int_max. lia.
Qed.

Lemma NewChapters_cons c t ts :
  NewChapters c (t :: ts)
  = (fst (NewChapters (fst (NewChapter c t)) ts),
     snd (NewChapter c t) :: snd (NewChapters (fst (NewChapter c t)) ts)).
Proof.
  cbn [NewChapters]. destruct (NewChapter c t) as [c1 chap]. cbn [fst snd].
  destruct (NewChapters c1 ts) as [c2 chaps]. reflexivity.
Qed.

(** X1: as long as the creator's counter stays within the range of an
    [int], the chapters that [NewChapter] builds one after the other are
    numbered consecutively from the counter plus one, in the order of the
    calls and each under its own title; no two of them share a number, the
    counter ends on the last number given, and every one of them starts
    with both flags set, no content, the creator's registry and the
    heading "{number}. {title}". *)
Theorem NewChapters_numbers_in_sequence c titles :
  GoInt.in_range (chapters c) ->
  chapters c + Z.of_nat (length titles) <= GoInt.int_max ->
  chapters (fst (NewChapters c titles))
  = chapters c + Z.of_nat (length titles)
  /\ creator_toc (fst (NewChapters c titles)) = creator_toc c
  /\ map title (snd (NewChapters c titles)) = titles
  /\ map number (snd (NewChapters c titles))
     = map (fun k => chapters c + Z.of_nat k) (seq 1 (length titles))
  /\ List.NoDup (map number (snd (NewChapters c titles)))
  /\ List.Forall
       (fun chap =>
          toc chap = creator_toc c /\ contents chap = []
          /\ showNumbering chap = true /\ includeInTOC chap = true
          /\ text (heading chap)
             = Sprintf_d_dot_s (number chap) (title chap))
       (snd (NewChapters c titles)).
Proof.
  intros Hr Hroom.
  assert (Hmain :
    chapters (fst (NewChapters c titles))
    = chapters c + Z.of_nat (length titles)
    /\ creator_toc (fst (NewChapters c titles)) = creator_toc c
    /\ map title (snd (NewChapters c titles)) = titles
    /\ map number (snd (NewChapters c titles))
       = map (fun k => chapters c + Z.of_nat k) (seq 1 (length titles))
    /\ List.Forall
         (fun chap =>
            toc chap = creator_toc c /\ contents chap = []
            /\ showNumbering chap = true /\ includeInTOC chap = true
            /\ text (heading chap)
               = Sprintf_d_dot_s (number chap) (title chap))
         (snd (NewChapters c titles))).
  { revert c Hr Hroom.
    induction titles as [|t ts IH]; intros c Hr Hroom.
    - cbn. repeat split; try lia. constructor.
    - cbn [length] in Hroom.
      assert (Hlt : chapters c < GoInt.int_max) by lia.
      destruct (NewChapter_number c t Hr Hlt) as [Hc1 Hn].
      rewrite NewChapters_cons. cbn [fst snd map length].
      destruct (IH (fst (NewChapter c t))) as (Hc & Htoc & Ht & Hnum & Hall).
      { rewrite Hc1. apply in_range_succ; assumption. }
      { rewrite Hc1. lia. }
      assert (Htoc1 : creator_toc (fst (NewChapter c t)) = creator_toc c)
        by reflexivity.
      split; [rewrite Hc, Hc1; lia|].
      split; [rewrite Htoc; exact Htoc1|].
      split; [rewrite Ht; reflexivity|].
      split.
      + rewrite Hnum, Hn, Hc1. cbn [seq map]. f_equal.
        rewrite <- (List.seq_shift (length ts) 1), List.map_map.
        apply List.map_ext. intros k. lia.
      + constructor; [repeat split|].
        eapply List.Forall_impl; [|exact Hall].
        intros chap (H1 & H2). split; [|exact H2].
        rewrite H1. exact Htoc1. }
  destruct Hmain as (Hc & Htoc & Ht & Hnum & Hall).
  repeat split; try assumption.
  rewrite Hnum. apply Finite.Injective_map_NoDup; [|apply List.seq_NoDup].
  intros a b Hab. lia.
Qed.

(** ** What a run of calls leaves of a chapter *)

Lemma calls_cons self chap m ms :
  calls self chap (m :: ms) = calls self (call self chap m) ms.
Proof. reflexivity. Qed.

Lemma Add_fields self chap d :
  number (fst (Add self chap d)) = number chap
  /\ title (fst (Add self chap d)) = title chap
  /\ heading (fst (Add self chap d)) = heading chap
  /\ subchapters (fst (Add self chap d)) = subchapters chap
  /\ showNumbering (fst (Add self chap d)) = showNumbering chap
  /\ includeInTOC (fst (Add self chap d)) = includeInTOC chap
  /\ chap_positioning (fst (Add self chap d)) = chap_positioning chap
  /\ xPos (fst (Add self chap d)) = xPos chap
  /\ yPos (fst (Add self chap d)) = yPos chap
  /\ chap_margins (fst (Add self chap d)) = chap_margins chap
  /\ sizing (fst (Add self chap d)) = sizing chap
  /\ toc (fst (Add self chap d)) = toc chap.
Proof.
  destruct (accepted d) eqn:Hacc.
  - rewrite (Add_accepted self chap d Hacc). repeat split.
  - destruct (Add_rejected self chap d Hacc) as [-> _]. repeat split.
Qed.

Lemma Add_contents self chap d :
  contents (fst (Add self chap d))
  = contents chap ++ List.filter accepted [d].
Proof.
  cbn [List.filter]. destruct (accepted d) eqn:Hacc.
  - rewrite (Add_accepted self chap d Hacc). reflexivity.
  - destruct (Add_rejected self chap d Hacc) as [-> _].
    rewrite app_nil_r. reflexivity.
Qed.

(** X2: whatever is called on a chapter, its number, its title, its count
    of subchapters, its sizing and its registry stay what they were; a
    chapter that [NewChapter] built therefore always reports the sizing
    "occupy available space". *)
Theorem calls_keep_identity_and_sizing self chap ms :
  number (calls self chap ms) = number chap
  /\ title (calls self chap ms) = title chap
  /\ subchapters (calls self chap ms) = subchapters chap
  /\ GetSizingMechanism (calls self chap ms) = GetSizingMechanism chap
  /\ toc (calls self chap ms) = toc chap
  /\ (forall c t,
        GetSizingMechanism (calls self (snd (NewChapter c t)) ms)
        = SizingOccupyAvailableSpace).
Proof.
  assert (Hkeep : forall ms chap,
    number (calls self chap ms) = number chap
    /\ title (calls self chap ms) = title chap
    /\ subchapters (calls self chap ms) = subchapters chap
    /\ sizing (calls self chap ms) = sizing chap
    /\ toc (calls self chap ms) = toc chap).
  { clear. induction ms as [|m ms IH]; intros chap; [repeat split|].
    rewrite calls_cons.
    destruct (IH (call self chap m)) as (-> & -> & -> & -> & ->).
    destruct m as [[]|include|x y|l r t b|d|t]; cbn [call];
      try (repeat split; fail).
    destruct (Add_fields self chap d)
      as (-> & -> & _ & -> & _ & _ & _ & _ & _ & _ & -> & ->).
    repeat split. }
  destruct (Hkeep ms chap) as (Hn & Ht & Hs & Hz & Htoc).
  repeat split; try assumption.
  intros c t. unfold GetSizingMechanism.
  destruct (Hkeep ms (snd (NewChapter c t))) as (_ & _ & _ & -> & _).
  reflexivity.
Qed.

Lemma flat_map_added_cons m ms :
  flat_map added_by (m :: ms) = added_by m ++ flat_map added_by ms.
Proof. reflexivity. Qed.

Lemma calls_contents self ms : forall chap,
  contents (calls self chap ms)
  = contents chap ++ List.filter accepted (flat_map added_by ms).
Proof.
  induction ms as [|m ms IH]; intros chap.
  - cbn. rewrite app_nil_r. reflexivity.
  - rewrite calls_cons, IH, flat_map_added_cons, List.filter_app, app_assoc.
    f_equal.
    destruct m as [[]|include|x y|l r t b|d|t]; cbn [call added_by];
      try (cbn; rewrite app_nil_r; reflexivity).
    apply Add_contents.
Qed.

(** X3: after any run of calls the contents are the contents from before
    followed by the arguments of the calls of [Add] that are of an accepted
    kind, in the order of the calls: nothing else adds, removes or reorders
    content.  The contents of a chapter built by [NewChapter] therefore
    only ever hold values of the types paragraph, image, block and
    subchapter that were given to [Add]: never the nil interface value,
    never the chapter itself or another chapter.  A nil pointer of an
    accepted type is stored like any other value of that type. *)
Theorem contents_are_the_accepted_arguments self chap ms :
  contents (calls self chap ms)
  = contents chap ++ List.filter accepted (flat_map added_by ms)
  /\ (forall c t d,
        In d (contents (calls self (snd (NewChapter c t)) ms)) ->
        accepted d = true
        /\ In (call_Add d) ms
        /\ d <> Drawable_nil
        /\ forall p, d <> Drawable_ptr T_Chapter p)
  /\ (forall ty,
        accepted (Drawable_ptr ty nil_ptr) = true ->
        contents (calls self chap (ms ++ [call_Add (Drawable_ptr ty nil_ptr)]))
        = contents (calls self chap ms) ++ [Drawable_ptr ty nil_ptr])
  /\ accepted (Drawable_ptr T_paragraph nil_ptr) = true
  /\ accepted (Drawable_ptr T_image nil_ptr) = true
  /\ accepted (Drawable_ptr T_Block nil_ptr) = true
  /\ accepted (Drawable_ptr T_subchapter nil_ptr) = true.
Proof.
  split; [apply calls_contents|]. split.
  - intros c t d Hin. rewrite calls_contents in Hin. cbn [app] in Hin.
    apply List.filter_In in Hin as [Hin Hacc].
    apply List.in_flat_map in Hin as (m & Hm & Hd).
    split; [exact Hacc|]. split.
    + destruct m; cbn in Hd; try contradiction.
      destruct Hd as [<- | []]. exact Hm.
    + split; [intros ->; discriminate Hacc|].
      intros p ->. discriminate Hacc.
  - split; [|repeat split].
    intros ty Hacc. rewrite !calls_contents, List.flat_map_app, List.filter_app.
    cbn [flat_map added_by app List.filter]. rewrite Hacc, app_assoc.
    reflexivity.
Qed.

Lemma margins_after_cons start m ms :
  margins_after start (m :: ms)
  = margins_after (margins_after start [m]) ms.
Proof. reflexivity. Qed.

Lemma calls_margins self ms : forall chap,
  chap_margins (calls self chap ms) = margins_after (chap_margins chap) ms.
Proof.
  induction ms as [|m ms IH]; intros chap; [reflexivity|].
  rewrite calls_cons, IH, margins_after_cons. f_equal.
  destruct m as [[]|include|x y|l r t b|d|t]; cbn [call]; try reflexivity.
  destruct (Add_fields self chap d)
    as (_ & _ & _ & _ & _ & _ & _ & _ & _ & -> & _).
  reflexivity.
Qed.

Lemma margins_after_none ms : forall start,
  existsb is_SetMargins ms = false -> margins_after start ms = start.
Proof.
  induction ms as [|m ms IH]; intros start Hnone; [reflexivity|].
  cbn [existsb] in Hnone. apply orb_false_iff in Hnone as [Hm Hms].
  rewrite margins_after_cons, (IH _ Hms).
  destruct m; try discriminate Hm; reflexivity.
Qed.

(** X4: [GetMargins] returns the four values of the last [SetMargins];
    calls of the other methods in between and afterwards do not change
    them, and before any [SetMargins] the margins of a chapter built by
    [NewChapter] are all zero. *)
Theorem GetMargins_returns_last_SetMargins self chap ms l r t b :
  GetMargins (SetMargins l r t b chap) = (l, r, t, b)
  /\ chap_margins (calls self chap ms) = margins_after (chap_margins chap) ms
  /\ (forall ms',
        existsb is_SetMargins ms' = false ->
        GetMargins (calls self (SetMargins l r t b (calls self chap ms)) ms')
        = (l, r, t, b))
  /\ (forall c title,
        existsb is_SetMargins ms = false ->
        GetMargins (calls self (snd (NewChapter c title)) ms)
        = (0, 0, 0, 0)%float).
Proof.
  split; [reflexivity|]. split; [apply calls_margins|]. split.
  - intros ms' Hnone. unfold GetMargins.
    rewrite calls_margins, (margins_after_none ms' _ Hnone). reflexivity.
  - intros c title Hnone. unfold GetMargins.
    rewrite calls_margins, (margins_after_none ms _ Hnone). reflexivity.
Qed.

Lemma position_after_cons start m ms :
  position_after start (m :: ms)
  = position_after (position_after start [m]) ms.
Proof. reflexivity. Qed.

Lemma calls_position self ms : forall chap,
  (chap_positioning (calls self chap ms),
   xPos (calls self chap ms), yPos (calls self chap ms))
  = position_after (chap_positioning chap, xPos chap, yPos chap) ms.
Proof.
  induction ms as [|m ms IH]; intros chap; [reflexivity|].
  rewrite calls_cons, IH, position_after_cons. f_equal.
  destruct m as [[]|include|x y|l r t b|d|t]; cbn [call]; try reflexivity.
  destruct (Add_fields self chap d)
    as (_ & _ & _ & _ & _ & _ & -> & -> & -> & _).
  reflexivity.
Qed.

Lemma position_after_absolute ms : forall x y,
  exists x' y', position_after (positionAbsolute, x, y) ms
                = (positionAbsolute, x', y').
Proof.
  induction ms as [|m ms IH]; intros x y; [eexists _, _; reflexivity|].
  rewrite position_after_cons. destruct m; cbn; apply IH.
Qed.

Lemma position_after_none ms : forall start,
  existsb is_SetPos ms = false -> position_after start ms = start.
Proof.
  induction ms as [|m ms IH]; intros start Hnone; [reflexivity|].
  cbn [existsb] in Hnone. apply orb_false_iff in Hnone as [Hm Hms].
  rewrite position_after_cons, (IH _ Hms).
  destruct m; try discriminate Hm; reflexivity.
Qed.

Lemma position_after_some ms : forall start,
  existsb is_SetPos ms = true ->
  exists x y, position_after start ms = (positionAbsolute, x, y).
Proof.
  induction ms as [|m ms IH]; intros start Hsome; [discriminate Hsome|].
  rewrite position_after_cons.
  destruct (is_SetPos m) eqn:Hm.
  - destruct m; try discriminate Hm. cbn. apply position_after_absolute.
  - cbn [existsb] in Hsome. rewrite Hm in Hsome. cbn [orb] in Hsome.
    apply IH, Hsome.
Qed.

(** X5: positioning goes one way.  A chapter is in absolute mode after a
    run of calls exactly when it was before or the run has a call of
    [SetPos]; no method brings it back to relative mode.  Without a call of
    [SetPos] mode and coordinates are untouched, and a chapter built by
    [NewChapter] starts in relative mode. *)
Theorem SetPos_is_one_way self chap ms :
  (chap_positioning (calls self chap ms),
   xPos (calls self chap ms), yPos (calls self chap ms))
  = position_after (chap_positioning chap, xPos chap, yPos chap) ms
  /\ (chap_positioning (calls self chap ms) = positionAbsolute
      <-> chap_positioning chap = positionAbsolute
          \/ existsb is_SetPos ms = true)
  /\ (existsb is_SetPos ms = false ->
      chap_positioning (calls self chap ms) = chap_positioning chap
      /\ xPos (calls self chap ms) = xPos chap
      /\ yPos (calls self chap ms) = yPos chap)
  /\ (forall x y ms',
        existsb is_SetPos ms' = false ->
        let chap' := calls self (SetPos x y (calls self chap ms)) ms' in
        chap_positioning chap' = positionAbsolute
        /\ xPos chap' = x /\ yPos chap' = y)
  /\ (forall c t, chap_positioning (snd (NewChapter c t)) = positionRelative).
Proof.
  pose proof (calls_position self ms chap) as Hpos.
  split; [exact Hpos|]. split; [|split; [|split]].
  - destruct (existsb is_SetPos ms) eqn:Hany.
    + destruct (position_after_some ms
                  (chap_positioning chap, xPos chap, yPos chap) Hany)
        as (x & y & Hafter).
      rewrite Hafter in Hpos. injection Hpos as -> _ _.
      split; [right; reflexivity | reflexivity].
    + rewrite (position_after_none ms _ Hany) in Hpos.
      injection Hpos as -> _ _.
      split; [left; assumption|].
      intros [Habs | Hno]; [exact Habs | discriminate Hno].
  - intros Hnone. rewrite (position_after_none ms _ Hnone) in Hpos.
    injection Hpos as -> -> ->. repeat split.
  - intros x y ms' Hnone chap'. subst chap'.
    pose proof (calls_position self ms' (SetPos x y (calls self chap ms)))
      as Hpos'.
    rewrite (position_after_none ms' _ Hnone) in Hpos'.
    injection Hpos' as -> -> ->. repeat split.
  - reflexivity.
Qed.

(** X6: the configuration methods act on fields of their own.  A second
    call of the same method replaces what the first one set, and calls of
    two different methods give the same chapter in either order. *)
Theorem setters_override_and_commute chap :
  (forall a b,
      SetShowNumbering b (SetShowNumbering a chap) = SetShowNumbering b chap)
  /\ (forall a b,
        SetIncludeInTOC b (SetIncludeInTOC a chap) = SetIncludeInTOC b chap)
  /\ (forall x y x' y', SetPos x' y' (SetPos x y chap) = SetPos x' y' chap)
  /\ (forall l r t b l' r' t' b',
        SetMargins l' r' t' b' (SetMargins l r t b chap)
        = SetMargins l' r' t' b' chap)
  /\ (forall a b,
        SetShowNumbering a (SetIncludeInTOC b chap)
        = SetIncludeInTOC b (SetShowNumbering a chap))
  /\ (forall a x y,
        SetShowNumbering a (SetPos x y chap)
        = SetPos x y (SetShowNumbering a chap))
  /\ (forall a l r t b,
        SetShowNumbering a (SetMargins l r t b chap)
        = SetMargins l r t b (SetShowNumbering a chap))
  /\ (forall a x y,
        SetIncludeInTOC a (SetPos x y chap)
        = SetPos x y (SetIncludeInTOC a chap))
  /\ (forall a l r t b,
        SetIncludeInTOC a (SetMargins l r t b chap)
        = SetMargins l r t b (SetIncludeInTOC a chap))
  /\ (forall x y l r t b,
        SetPos x y (SetMargins l r t b chap)
        = SetMargins l r t b (SetPos x y chap)).
Proof.
  repeat split; intros;
    repeat match goal with a : bool |- _ => destruct a end; reflexivity.
Qed.

(** ** Size and content *)

Section SizeAndContent.

Variable hgt wid : Drawable -> float.

Lemma Height_loop_snoc ds d : forall h,
  Height_loop hgt (ds ++ [d]) h = (Height_loop hgt ds h + hgt d)%float.
Proof.
  induction ds as [|d0 ds IH]; intros h; [reflexivity|].
  cbn [app Height_loop]. apply IH.
Qed.

Lemma Width_loop_snoc ds d : forall w,
  Width_loop wid (ds ++ [d]) w = math_Max (Width_loop wid ds w) (wid d).
Proof.
  induction ds as [|d0 ds IH]; intros w; [reflexivity|].
  cbn [app Width_loop]. apply IH.
Qed.

(** X7: [Add] of an accepted drawable raises [Height] by the drawable's
    height and makes [Width] the maximum of the width so far and the
    drawable's width; a rejected [Add] leaves both as they were.  A chapter
    as [NewChapter] built it has height and width zero. *)
Theorem size_follows_Add self chap d :
  (accepted d = true ->
     Height hgt (fst (Add self chap d)) = (Height hgt chap + hgt d)%float
     /\ Width wid (fst (Add self chap d))
        = math_Max (Width wid chap) (wid d))
  /\ (accepted d = false ->
     Height hgt (fst (Add self chap d)) = Height hgt chap
     /\ Width wid (fst (Add self chap d)) = Width wid chap)
  /\ (forall c t,
        Height hgt (snd (NewChapter c t)) = 0%float
        /\ Width wid (snd (NewChapter c t)) = 0%float).
Proof.
  split; [|split].
  - intros Hacc. rewrite (Add_accepted self chap d Hacc).
    unfold Height, Width. cbn [fst with_contents contents].
    rewrite Height_loop_snoc, Width_loop_snoc. split; reflexivity.
  - intros Hrej. destruct (Add_rejected self chap d Hrej) as [-> _].
    split; reflexivity.
  - intros c t. split; reflexivity.
Qed.

End SizeAndContent.

(* ------------------------------------------------------------------ *)
(** * Further properties of the pagination *)

Section MorePaginationProperties.

Context {Block Cursor : Type}.
Variable mergeBlocks : Block -> Block -> Block.
Variable pgen :
  paragraph -> DrawContext Cursor ->
  list Block * DrawContext Cursor * option error.
Variable dgen :
  Drawable -> DrawContext Cursor ->
  (list Block * DrawContext Cursor * option error)
  * list tableOfContentsEntry.

Local Abbreviation body := (loop_body mergeBlocks dgen).
Local Abbreviation loop := (contents_loop mergeBlocks dgen).
Local Abbreviation generate := (GeneratePageBlocks mergeBlocks pgen dgen).
Local Abbreviation body_spec := (body_spec mergeBlocks dgen).
Local Abbreviation skipped := (skipped dgen).

(** ** A heading that fails *)

(** X8: when the heading's generation returns an error, the call returns
    the heading's blocks, the heading's context and that error at once:
    the page counter is not advanced even for more than one block, the
    registry is left as it was whatever the flag says, and no nested item
    is run, whatever the contents are. *)
Theorem heading_error_ends_the_call chap chap' ctx registry hb hctx e :
  pgen (heading chap) ctx = (hb, hctx, Some e) ->
  heading chap' = heading chap ->
  GeneratePageBlocks mergeBlocks pgen dgen chap' ctx registry
  = (Returns hb hctx (Some e), registry).
Proof.
  intros Hh Hsame. apply GeneratePageBlocks_heading_error.
  rewrite Hsame. exact Hh.
Qed.

(** ** Blocks that are done *)

Lemma snoc_app_cons {A : Type} (init : list A) (x : A) (rest : list A) :
  exists init' last', init ++ [x] ++ rest = (init ++ init') ++ [last'].
Proof.
  destruct (nil_or_snoc rest) as [-> | (r & y & ->)].
  - exists [], x. rewrite !app_nil_r. reflexivity.
  - exists (x :: r), y. rewrite <- !app_assoc. reflexivity.
Qed.

Lemma contents_loop_keeps_prefix ds :
  forall init last ctx registry blocks' ctx' err registry',
    loop ds (init ++ [last]) ctx registry
    = (Returns blocks' ctx' err, registry') ->
    exists tail, blocks' = init ++ tail /\ tail <> [].
Proof.
  induction ds as [|d ds IH];
    intros init last ctx registry blocks' ctx' err registry' Hl.
  - cbn in Hl. injection Hl as <- _ _ _. exists [last].
    split; [reflexivity | discriminate].
  - rewrite contents_loop_cons in Hl.
    destruct (loop_body_cases mergeBlocks dgen d (init ++ [last]) ctx registry)
      as [nb c e reg Hg|c reg Hg|init0 last0 first rest c reg Hg Hbl
         |first rest c reg Hg Hbl].
    + injection Hl as <- _ _ _. exists [last].
      split; [reflexivity | discriminate].
    + eapply IH, Hl.
    + apply app_inj_tail in Hbl as [<- <-].
      destruct (snoc_app_cons init (mergeBlocks last first) rest)
        as (init' & last' & Heq).
      rewrite Heq in Hl. apply IH in Hl as (tail & -> & Hne).
      exists (init' ++ tail). rewrite <- app_assoc.
      split; [reflexivity|].
      intros Hnil. apply app_eq_nil in Hnil as [_ Hnil]. contradiction.
    + destruct init; discriminate Hbl.
Qed.

(** X9: merging only ever touches the last block.  All blocks of the
    heading but its last one come first in the blocks that the call
    returns, unchanged, on success and on a nested error alike; and so do,
    from any turn of the loop on, all accumulated blocks but the last. *)
Theorem finished_blocks_are_returned_unchanged
    chap ctx registry init last hctx blocks' ctx' err registry' :
  pgen (heading chap) ctx = (init ++ [last], hctx, None) ->
  GeneratePageBlocks mergeBlocks pgen dgen chap ctx registry
  = (Returns blocks' ctx' err, registry') ->
  (exists tail, blocks' = init ++ tail /\ tail <> [])
  /\ (forall ds acc lst c r blocks'' c'' err'' r'',
        contents_loop mergeBlocks dgen ds (acc ++ [lst]) c r
        = (Returns blocks'' c'' err'', r'') ->
        exists tail, blocks'' = acc ++ tail /\ tail <> []).
Proof.
  intros Hh Hg. split.
  - rewrite (GeneratePageBlocks_heading_ok mergeBlocks pgen dgen
               chap ctx registry _ hctx Hh) in Hg.
    eapply contents_loop_keeps_prefix, Hg.
  - intros ds acc lst c r blocks'' c'' err'' r''.
    apply contents_loop_keeps_prefix.
Qed.

(** ** How many blocks *)

Lemma loop_body_count d blocks ctx registry blocks' ctx' registry' :
  body d blocks ctx registry = (Next blocks' ctx', registry') ->
  length blocks'
  = (length blocks + (length (fst (fst (fst (dgen d ctx)))) - 1))%nat.
Proof.
  intros Hb.
  destruct (loop_body_cases mergeBlocks dgen d blocks ctx registry)
    as [nb c e reg Hg|c reg Hg|init last first rest c reg Hg Hbl
       |first rest c reg Hg Hbl];
    inversion Hb; subst; rewrite Hg; cbn [fst length].
  - lia.
  - rewrite !length_app. cbn [length]. lia.
Qed.

Lemma contents_loop_count ds :
  (forall d c, In d ds -> (length (fst (fst (fst (dgen d c)))) <= 1)%nat) ->
  forall blocks ctx registry blocks' ctx' err registry',
    loop ds blocks ctx registry = (Returns blocks' ctx' err, registry') ->
    length blocks' = length blocks.
Proof.
  induction ds as [|d ds IH];
    intros Hone blocks ctx registry blocks' ctx' err registry' Hl.
  - cbn in Hl. injection Hl as <- _ _ _. reflexivity.
  - rewrite contents_loop_cons in Hl.
    destruct (body d blocks ctx registry) as [[b2 c2|o] r2] eqn:Hb.
    + pose proof (loop_body_count _ _ _ _ _ _ _ Hb) as Hcount.
      pose proof (Hone d ctx (or_introl eq_refl)) as Hd.
      apply IH in Hl; [lia|].
      intros d' c Hin. apply Hone. right. exact Hin.
    + destruct (loop_body_cases mergeBlocks dgen d blocks ctx registry);
        inversion Hb; subst; inversion Hl; subst; reflexivity.
Qed.

(** X10: a turn of the loop that goes on lengthens the accumulated
    sequence by the number of the item's blocks less one (by nothing for
    an item without blocks): the first block is merged, the others are new.
    So when no nested item ever returns more than one block, the call
    returns exactly as many blocks as the heading produced. *)
Theorem blocks_grow_by_the_overflow_of_each_item
    chap ctx registry hb hctx blocks' ctx' err registry' :
  pgen (heading chap) ctx = (hb, hctx, None) ->
  GeneratePageBlocks mergeBlocks pgen dgen chap ctx registry
  = (Returns blocks' ctx' err, registry') ->
  (forall d blocks c r blocks'' c'' r'',
      loop_body mergeBlocks dgen d blocks c r = (Next blocks'' c'', r'') ->
      length blocks''
      = (length blocks + (length (fst (fst (fst (dgen d c)))) - 1))%nat)
  /\ ((forall d c, In d (contents chap) ->
         (length (fst (fst (fst (dgen d c)))) <= 1)%nat) ->
      length blocks' = length hb).
Proof.
  intros Hh Hg. split.
  - intros d blocks c r blocks'' c'' r''. apply loop_body_count.
  - intros Hone.
    rewrite (GeneratePageBlocks_heading_ok mergeBlocks pgen dgen
               chap ctx registry hb hctx Hh) in Hg.
    eapply contents_loop_count; eassumption.
Qed.

(** ** Items without blocks *)

Lemma loop_body_fst d blocks ctx r r' :
  fst (body d blocks ctx r) = fst (body d blocks ctx r').
Proof.
  rewrite (loop_body_registry mergeBlocks dgen d blocks ctx r).
  rewrite (loop_body_registry mergeBlocks dgen d blocks ctx r').
  reflexivity.
Qed.

Lemma contents_loop_fst ds blocks ctx r r' :
  fst (loop ds blocks ctx r) = fst (loop ds blocks ctx r').
Proof.
  rewrite (contents_loop_registry mergeBlocks dgen ds blocks ctx r).
  rewrite (contents_loop_registry mergeBlocks dgen ds blocks ctx r').
  reflexivity.
Qed.

Lemma contents_loop_without_quiet_items (quiet : Drawable -> bool) ds :
  (forall d c, In d ds -> quiet d = true -> skipped c d) ->
  forall blocks ctx r r',
    fst (loop ds blocks ctx r)
    = fst (loop (List.filter (fun d => negb (quiet d)) ds) blocks ctx r').
Proof.
  induction ds as [|d ds IH]; intros Hq blocks ctx r r'; [reflexivity|].
  assert (Hds : forall d' c, In d' ds -> quiet d' = true -> skipped c d')
    by (intros d' c Hin; apply Hq; right; exact Hin).
  cbn [List.filter]. destruct (quiet d) eqn:Hqd; cbn [negb].
  - destruct (Hq d ctx (or_introl eq_refl) Hqd) as (c & reg & Hg).
    rewrite contents_loop_cons.
    rewrite (loop_body_skip mergeBlocks dgen d blocks ctx r c reg Hg).
    apply IH, Hds.
  - rewrite !contents_loop_cons.
    pose proof (loop_body_fst d blocks ctx r r') as Hfst.
    destruct (body d blocks ctx r) as [[b1 c1|o1] r1];
      destruct (body d blocks ctx r') as [[b2 c2|o2] r2];
      cbn [fst] in Hfst; try discriminate Hfst.
    + injection Hfst as <- <-. apply IH, Hds.
    + injection Hfst as <-. reflexivity.
Qed.

(** X11: nested items that return no block and no error leave no trace in
    what the call returns: with them taken out of the contents the call
    gives the same blocks, context and error (or the same panic).  A
    chapter whose items are all of that kind, and so a chapter without
    content, returns the heading's blocks and the context after the
    heading. *)
Theorem items_without_blocks_leave_no_trace
    (quiet : Drawable -> bool) chap ctx registry :
  (forall d c, In d (contents chap) -> quiet d = true -> skipped c d) ->
  fst (GeneratePageBlocks mergeBlocks pgen dgen chap ctx registry)
  = fst (GeneratePageBlocks mergeBlocks pgen dgen
           (with_contents
              (List.filter (fun d => negb (quiet d)) (contents chap)) chap)
           ctx registry)
  /\ (forall hb hctx,
        pgen (heading chap) ctx = (hb, hctx, None) ->
        (forall d, In d (contents chap) -> quiet d = true) ->
        fst (GeneratePageBlocks mergeBlocks pgen dgen chap ctx registry)
        = Returns hb (heading_advance hb hctx) None).
Proof.
  intros Hq.
  assert (Hdrop :
    fst (generate chap ctx registry)
    = fst (generate
             (with_contents
                (List.filter (fun d => negb (quiet d)) (contents chap)) chap)
             ctx registry)).
  { unfold GeneratePageBlocks. cbn [with_contents heading contents].
    destruct (pgen (heading chap) ctx) as [[hb hctx] [e|]]; [reflexivity|].
    apply contents_loop_without_quiet_items, Hq. }
  split; [exact Hdrop|].
  intros hb hctx Hh Hall. rewrite Hdrop.
  assert (Hnone : List.filter (fun d => negb (quiet d)) (contents chap) = []).
  { clear -Hall. induction (contents chap) as [|d ds IH]; [reflexivity|].
    cbn [List.filter]. rewrite (Hall d (or_introl eq_refl)). cbn [negb].
    apply IH. intros d' Hin. apply Hall. right. exact Hin. }
  rewrite Hnone. unfold GeneratePageBlocks.
  cbn [with_contents heading contents].
  rewrite Hh. reflexivity.
Qed.

(** ** Generating twice *)

(** X12: a call neither reads the registry nor looks for an entry of its
    own in it.  Generating an included chapter a second time from the same
    context, on the registry that the first call left, returns what the
    first call returned and adds the chapter's entry, and what the nested
    items register, once more. *)
Theorem a_second_generation_registers_again
    chap ctx registry hb hctx :
  includeInTOC chap = true ->
  pgen (heading chap) ctx = (hb, hctx, None) ->
  let entry :=
    mkEntry (title chap) (number chap) 0 (Page (heading_advance hb hctx)) in
  let nested :=
    snd (contents_loop mergeBlocks dgen (contents chap) hb
           (heading_advance hb hctx) []) in
  let once := GeneratePageBlocks mergeBlocks pgen dgen chap ctx registry in
  let twice := GeneratePageBlocks mergeBlocks pgen dgen chap ctx (snd once) in
  snd once = registry ++ [entry] ++ nested
  /\ snd twice = registry ++ [entry] ++ nested ++ [entry] ++ nested
  /\ fst twice = fst once.
Proof.
  intros Hin Hh entry nested once twice. subst once twice.
  assert (Hgen : forall r,
    generate chap ctx r
    = (fst (loop (contents chap) hb (heading_advance hb hctx) []),
       r ++ [entry] ++ nested)).
  { intros r.
    rewrite (GeneratePageBlocks_heading_ok mergeBlocks pgen dgen
               chap ctx r hb hctx Hh).
    unfold include_in_toc, TableOfContents_add. rewrite Hin.
    rewrite (contents_loop_registry mergeBlocks dgen).
    fold entry nested. rewrite <- app_assoc. reflexivity. }
  rewrite !Hgen. cbn [fst snd]. rewrite <- !app_assoc.
  repeat split; reflexivity.
Qed.

End MorePaginationProperties.

(* ------------------------------------------------------------------ *)
(** * The further properties on the concrete document *)

Import Scenario2.

Local Open Scope string_scope.

(** Three chapters of a new creator are numbered 1, 2 and 3. *)
Lemma NewChapters_numbers_in_sequence_witness :
  map number (snd (NewChapters creator0 three_titles)) = [1; 2; 3]
  /\ map title (snd (NewChapters creator0 three_titles)) = three_titles
  /\ chapters (fst (NewChapters creator0 three_titles)) = 3.
Proof.
  destruct (NewChapters_numbers_in_sequence creator0 three_titles)
    as (Hc & _ & Ht & Hn & _).
  - unfold GoInt.in_range, GoInt.int_min, GoInt.int_max. cbn. lia.
  - unfold GoInt.int_max. cbn. lia.
  - split; [exact Hn|]. split; [exact Ht | exact Hc].
Defined.

(** The counter at the largest [int]: the next chapter gets the smallest
    one as its number. *)
Example NewChapter_wraps_at_the_largest_int :
  number (snd (NewChapter (mkCreator GoInt.int_max 100%N) "Last"))
  = GoInt.int_min.
Proof. reflexivity. Qed.

(** A run of calls on "Intro": the contents, margins and position it
    leaves. *)
Example intro_after_a_run_of_calls :
  let chap :=
    calls intro_addr intro
      [call_SetMargins 1 2 3 4; call_Add para1; call_SetPos 5 6;
       call_Add (Drawable_ptr T_Chapter intro_addr);
       call_SetMargins 7 8 9 10; call_SetShowNumbering false;
       call_Add image3] in
  contents chap = [para1; image3]
  /\ GetMargins chap = (7, 8, 9, 10)%float
  /\ (chap_positioning chap, xPos chap, yPos chap)
     = (positionAbsolute, 5, 6)%float
  /\ GetSizingMechanism chap = SizingOccupyAvailableSpace
  /\ number chap = 1 /\ text (heading chap) = "Intro".
Proof. repeat split. Qed.

(** The heading fails on its second block: both blocks and page 3 come
    back, the page is not advanced to 4, the registry stays empty and the
    paragraph is not drawn. *)
Lemma heading_error_ends_the_call_witness :
  GeneratePageBlocks mergeText heading_fails draw
    (with_contents [para1] intro) (ctx_at 0) []
  = (Returns ["1. Intro"; "overflow"] (ctx_at 3)
       (Some "font: missing glyph"), []).
Proof.
  apply (heading_error_ends_the_call mergeText heading_fails draw
           intro (with_contents [para1] intro) (ctx_at 0) []
           ["1. Intro"; "overflow"] (ctx_at 3) "font: missing glyph");
    reflexivity.
Defined.

(** The first block of a heading on two blocks heads the blocks that the
    call returns. *)
Lemma finished_blocks_are_returned_unchanged_witness :
  GeneratePageBlocks mergeText heading_wraps draw
    (with_contents [para1; para2] intro) (ctx_at 0) []
  = (Returns [EmptyString; "1. Introbodylong"; "tail"] (ctx_at 2) None,
     [mkEntry "Intro" 1 0 1])
  /\ exists tail,
       [EmptyString; "1. Introbodylong"; "tail"] = ([EmptyString] ++ tail)%list
       /\ tail <> [].
Proof.
  split; [reflexivity|].
  destruct (finished_blocks_are_returned_unchanged mergeText heading_wraps
              draw (with_contents [para1; para2] intro) (ctx_at 0) []
              [EmptyString] "1. Intro" (ctx_at 0)
              [EmptyString; "1. Introbodylong"; "tail"] (ctx_at 2) None
              [mkEntry "Intro" 1 0 1] eq_refl eq_refl) as [Hkept _].
  exact Hkept.
Defined.

(** Three items of one block each after a heading of one block: one block
    comes back. *)
Lemma blocks_grow_by_the_overflow_of_each_item_witness :
  GeneratePageBlocks mergeText heading_fits draw
    (with_contents [para1; sub5; para1] intro) (ctx_at 0) []
  = (Returns ["1. Introbody1.1. Scopebody"] (ctx_at 0) None,
     [mkEntry "Intro" 1 0 0; mkEntry "Scope" 1 1 0])
  /\ length ["1. Introbody1.1. Scopebody"] = length ["1. Intro"].
Proof.
  split; [reflexivity|].
  destruct (blocks_grow_by_the_overflow_of_each_item mergeText heading_fits
              draw (with_contents [para1; sub5; para1] intro) (ctx_at 0) []
              ["1. Intro"] (ctx_at 0) ["1. Introbody1.1. Scopebody"]
              (ctx_at 0) None
              [mkEntry "Intro" 1 0 0; mkEntry "Scope" 1 1 0]
              eq_refl eq_refl) as [_ Hsame].
  apply Hsame.
  intros d c [<- | [<- | [<- | []]]]; cbn; lia.
Defined.

Lemma block4_is_skipped d c :
  draws_nothing d = true -> skipped draw c d.
Proof.
  unfold draws_nothing. destruct (decide (d = block4)) as [-> | _];
    [|discriminate].
  intros _. exists c, []. reflexivity.
Qed.

(** Empty blocks before and after a paragraph: the call returns what it
    returns for the paragraph alone. *)
Lemma items_without_blocks_leave_no_trace_witness :
  fst (GeneratePageBlocks mergeText heading_fits draw
         (with_contents [block4; para1; block4] intro) (ctx_at 0) [])
  = fst (GeneratePageBlocks mergeText heading_fits draw
           (with_contents [para1] intro) (ctx_at 0) []).
Proof.
  destruct (items_without_blocks_leave_no_trace mergeText heading_fits draw
              draws_nothing (with_contents [block4; para1; block4] intro)
              (ctx_at 0) []) as [Hdrop _].
  - intros d c _. apply block4_is_skipped.
  - exact Hdrop.
Defined.

(** "Intro" with a subchapter, generated twice: both entries are in the
    registry twice. *)
Lemma a_second_generation_registers_again_witness :
  snd (GeneratePageBlocks mergeText heading_fits draw
         (with_contents [sub5] intro) (ctx_at 0)
         (snd (GeneratePageBlocks mergeText heading_fits draw
                 (with_contents [sub5] intro) (ctx_at 0) [])))
  = [mkEntry "Intro" 1 0 0; mkEntry "Scope" 1 1 0;
     mkEntry "Intro" 1 0 0; mkEntry "Scope" 1 1 0].
Proof.
  destruct (a_second_generation_registers_again mergeText heading_fits draw
              (with_contents [sub5] intro) (ctx_at 0) [] ["1. Intro"]
              (ctx_at 0) eq_refl eq_refl) as (_ & Htwice & _).
  exact Htwice.
Defined.

(* ------------------------------------------------------------------ *)
(** * Height and width with the heading reachable through its pointer *)

Local Close Scope string_scope.

Section SizeThroughPointersProperties.

Variable heading_ptr : addr.
Variable ph pw : paragraph -> float.
Variable dh dw : Drawable -> float.

Lemma map_Height_of_other chap chap' ds :
  ~ In (GetHeading_Drawable heading_ptr) ds ->
  map (Height_of heading_ptr ph dh chap) ds
  = map (Height_of heading_ptr ph dh chap') ds.
Proof.
  intros Hnot. apply List.map_ext_in. intros d Hd. unfold Height_of.
  destruct (decide (d = GetHeading_Drawable heading_ptr)) as [-> | _];
    [contradiction | reflexivity].
Qed.

Lemma Chapter_Height_same_contents chap chap' :
  contents chap' = contents chap ->
  ~ In (GetHeading_Drawable heading_ptr) (contents chap) ->
  Chapter_Height heading_ptr ph dh chap'
  = Chapter_Height heading_ptr ph dh chap.
Proof.
  intros Hsame Hnot. unfold Chapter_Height, Height.
  rewrite !Height_loop_fold, Hsame.
  rewrite (map_Height_of_other chap' chap _ Hnot). reflexivity.
Qed.

(** C7, as amended: [Height] is the sum, taken from zero in the order of
    the contents, of the nested items' heights.  The heading's height is
    no part of it unless the heading itself, got through [GetHeading], was
    added as content: with the heading not among the contents the sum runs
    over the other drawables only and is the same whatever the heading is
    and whatever [SetShowNumbering] was called with.  [SetIncludeInTOC]
    never changes it.  [Width] is zero for empty contents and, no width
    being NaN, the greatest width among the nested items as soon as one of
    them has a width that is not negative. *)
Theorem Height_counts_the_heading_only_as_content chap :
  Chapter_Height heading_ptr ph dh chap
  = float64_sum (map (Height_of heading_ptr ph dh chap) (contents chap))
  /\ (~ In (GetHeading_Drawable heading_ptr) (contents chap) ->
      Chapter_Height heading_ptr ph dh chap
      = float64_sum (map dh (contents chap))
      /\ (forall p,
            Chapter_Height heading_ptr ph dh (with_heading p chap)
            = Chapter_Height heading_ptr ph dh chap)
      /\ (forall show,
            Chapter_Height heading_ptr ph dh (SetShowNumbering show chap)
            = Chapter_Height heading_ptr ph dh chap))
  /\ (forall include,
        Chapter_Height heading_ptr ph dh (SetIncludeInTOC include chap)
        = Chapter_Height heading_ptr ph dh chap)
  /\ (contents chap = [] -> Chapter_Width heading_ptr pw dw chap = 0%float)
  /\ ((forall d, In d (contents chap) ->
         is_nan (Width_of heading_ptr pw dw chap d) = false) ->
      (exists d, In d (contents chap)
                 /\ float_le 0 (Width_of heading_ptr pw dw chap d)) ->
      exists d,
        In d (contents chap)
        /\ (Chapter_Width heading_ptr pw dw chap
            =? Width_of heading_ptr pw dw chap d)%float = true
        /\ forall d', In d' (contents chap) ->
                      float_le (Width_of heading_ptr pw dw chap d')
                        (Width_of heading_ptr pw dw chap d)).
Proof.
  destruct (Height_is_sum_and_Width_is_max_with_zero
              (Height_of heading_ptr ph dh chap)
              (Width_of heading_ptr pw dw chap) chap)
    as (Hsum & _ & _ & _ & _ & Hempty & _ & Hmax).
  split; [exact Hsum|]. split; [|split; [|split; [exact Hempty | exact Hmax]]].
  - intros Hnot. split; [|split].
    + unfold Chapter_Height. rewrite Hsum. f_equal.
      apply List.map_ext_in. intros d Hd. unfold Height_of.
      destruct (decide (d = GetHeading_Drawable heading_ptr)) as [-> | _];
        [contradiction | reflexivity].
    + intros p. apply Chapter_Height_same_contents; [reflexivity | exact Hnot].
    + intros show. apply Chapter_Height_same_contents; [|exact Hnot].
      destruct show; reflexivity.
  - intros include. reflexivity.
Qed.

End SizeThroughPointersProperties.

Import Scenario Scenario2.

Local Open Scope string_scope.

(** The heading of "Intro" added to the contents of "Intro": the height is
    the heading's, two lines with the number and one line without. *)
Lemma Height_follows_a_heading_added_as_content :
  ~ (forall (heading_ptr : addr) (ph : paragraph -> float)
       (dh : Drawable -> float) (chap : Chapter) (show : bool),
       Chapter_Height heading_ptr ph dh (SetShowNumbering show chap)
       = Chapter_Height heading_ptr ph dh chap).
Proof.
  intros Hclaim.
  specialize (Hclaim intro_heading_ptr lines_of (fun _ => 0%float)
                (fst (Add intro_addr intro
                        (GetHeading_Drawable intro_heading_ptr)))
                false).
  apply (f_equal (fun x => (x <? 1.5)%float)) in Hclaim.
  vm_compute in Hclaim. discriminate Hclaim.
Qed.

(** The same chapter, by the numbers. *)
Example intro_height_with_its_heading_as_content :
  let chap :=
    fst (Add intro_addr intro (GetHeading_Drawable intro_heading_ptr)) in
  contents chap = [GetHeading_Drawable intro_heading_ptr]
  /\ Chapter_Height intro_heading_ptr lines_of (fun _ => 0%float) chap
     = 2%float
  /\ Chapter_Height intro_heading_ptr lines_of (fun _ => 0%float)
       (SetShowNumbering false chap)
     = 1%float.
Proof. repeat split. Qed.

(** A paragraph of one block after a heading without blocks: the turn of
    the loop does not go on to the next item with the paragraph's context,
    it panics. *)
Lemma no_merge_without_an_accumulated_block :
  ~ (forall (Block Cursor : Type) (merge : Block -> Block -> Block)
       (dgen : Drawable -> DrawContext Cursor ->
               (list Block * DrawContext Cursor * option error)
               * list tableOfContentsEntry)
       (d : Drawable) (blocks : list Block) (ctx : DrawContext Cursor)
       (registry : TableOfContents) first rest c reg,
       dgen d ctx = ((first :: rest, c, None), reg) ->
       exists blocks',
         loop_body merge dgen d blocks ctx registry
         = (Next (blocks' ++ rest)%list c, (registry ++ reg)%list)).
Proof.
  intros Hclaim.
  destruct (Hclaim string unit mergeText draw para1 [] (ctx_at 0) []
              "body" [] (ctx_at 0) [] eq_refl) as [blocks' Hnext].
  vm_compute in Hnext. discriminate Hnext.
Qed.
